(** * 3ds.md: a shallow embedding of [source/main.c]

    The note manager keeps ten fixed-size records in a static array, copies
    text into them with a truncating copy, persists each record as one file
    of the directory [sdmc:/3ds.md/], and is driven by a modal loop
    (menu / note list / note view).

    Conventions of the embedding.
    - A [char] array, and a pointer into one, is the list of the bytes it
      designates onward.  Where the source tests a pointer against null
      the argument is a [ptr]: [NULL], or [Ref] of the designated object.
    - [size_t] is the 32-bit unsigned type of the target; its arithmetic
      wraps ([size_t]).  [int] is 32-bit signed; its overflow is undefined.
    - Undefined behaviour (reading or writing outside an object, an
      unterminated string, signed overflow, a zero divisor or a quotient
      that is not representable) is the result [None]; a defined execution
      is [Some] of the memory it leaves. *)

From Stdlib Require Import ZArith Lia Strings.String Strings.Byte.
From stdpp Require Import base option list numbers.

Local Open Scope Z_scope.

(** ** Bytes and C strings *)

#[global] Instance byte_eq_dec : EqDecision byte := Byte.byte_eq_dec.

Definition NUL : byte := x00.
Definition LF : byte := x0a.

Definition is_nul (b : byte) : bool := Byte.eqb b NUL.

(** The characters of the C string that starts a memory area: everything
    before the first terminator. *)
Fixpoint cstr (m : list byte) : list byte :=
  match m with
  | [] => []
  | b :: m' => if is_nul b then [] else b :: cstr m'
  end.

(** [strlen]: the scan for the terminator; it leaves the object when there
    is none. *)
Fixpoint strlen (m : list byte) : option Z :=
  match m with
  | [] => None
  | b :: m' => if is_nul b then Some 0 else Z.succ <$> strlen m'
  end.

Definition SIZE_WIDTH : Z := 32.
Definition size_t (z : Z) : Z := z mod 2 ^ SIZE_WIDTH.

Definition INT_MIN : Z := - 2 ^ 31.
Definition INT_MAX : Z := 2 ^ 31 - 1.

(** A signed [int] result: defined only when representable. *)
Definition int (z : Z) : option Z :=
  if decide (INT_MIN <= z <= INT_MAX) then Some z else None.

(** [a % b] on [int]: truncated remainder, undefined where [a / b] is: for a
    zero divisor, and when the quotient is not representable
    ([INT_MIN % -1]). *)
Definition int_mod (a b : Z) : option Z :=
  if decide (b = 0) then None else
  _ ← int (Z.quot a b);
  int (Z.rem a b).

(** [memcpy(dest, src, n)]: both areas must hold [n] bytes. *)
Definition memcpy (dest src : list byte) (n : Z) : option (list byte) :=
  let k := Z.to_nat n in
  if decide (0 <= n ∧ (k ≤ length dest)%nat ∧ (k ≤ length src)%nat)
  then Some (take k src ++ drop k dest)
  else None.

(** [m[i] = b]. *)
Definition poke (m : list byte) (i : Z) (b : byte) : option (list byte) :=
  if decide (0 <= i < Z.of_nat (length m))
  then Some (<[Z.to_nat i := b]> m)
  else None.

(** A pointer argument the callee tests: null, or the object it
    designates. *)
Inductive ptr (A : Type) : Type :=
  | NULL
  | Ref (obj : A).

Arguments NULL {A}.
Arguments Ref {A} obj.

Definition is_null {A} (p : ptr A) : bool :=
  match p with NULL => true | Ref _ => false end.

(** [*p]. *)
Definition deref {A} (p : ptr A) : option A :=
  match p with NULL => None | Ref obj => Some obj end.

(** [memset(m, 0, sizeof m)]. *)
Definition zeroed (n : Z) : list byte := replicate (Z.to_nat n) NUL.

(** ** Definitions and globals *)

Inductive AppMode :=
  | MODE_MENU
  | MODE_NOTE_LIST
  | MODE_VIEW_NOTE
  | MODE_EDIT_NOTE.

#[global] Instance AppMode_eq_dec : EqDecision AppMode.
Proof. solve_decision. Defined.

Definition MAX_NOTES : Z := 10.
Definition NOTE_CONTENT_LEN : Z := 1024.
Definition TITLE_LEN : Z := 32.
Definition NOTES_DIR : list byte := list_byte_of_string "sdmc:/3ds.md/".

Record Note := mkNote {
  title : list byte;     (* char title[TITLE_LEN] *)
  content : list byte    (* char content[NOTE_CONTENT_LEN] *)
}.

(** ** Helper functions *)

(** Both functions return the pointer they were given first, on what the
    call leaves there. *)
Definition safe_string_copy (dest src : ptr (list byte)) (dest_size : Z)
  : option (ptr (list byte)) :=
  if is_null dest || is_null src || (dest_size =? 0) then Some dest else
  d ← deref dest;
  s ← deref src;
  src_len ← strlen s;
  let copy_len :=
    if src_len <? size_t (dest_size - 1) then src_len
    else size_t (dest_size - 1) in
  d ← memcpy d s copy_len;
  d ← poke d copy_len NUL;
  Some (Ref d).

Definition append_to_note (note : ptr Note) (new_content : ptr (list byte))
  : option (ptr Note) :=
  if is_null note || is_null new_content then Some note else
  n ← deref note;
  new ← deref new_content;
  current_len ← strlen (content n);
  new_len ← strlen new;
  (* room for new content + newline + null terminator? *)
  if NOTE_CONTENT_LEN <=? size_t (size_t (current_len + new_len) + 2)
  then Some note else
  (* not the first line: add a newline *)
  '(buf, current_len) ←
    (if 0 <? current_len
     then buf ← poke (content n) current_len LF;
          Some (buf, size_t (current_len + 1))
     else Some (content n, current_len));
  (* the copy starts at content + current_len *)
  tail ← safe_string_copy (Ref (drop (Z.to_nat current_len) buf)) new_content
           (size_t (NOTE_CONTENT_LEN - current_len)) ≫= deref;
  Some (Ref (mkNote (title n) (take (Z.to_nat current_len) buf ++ tail))).

(** ** The storage directory

    The SD card is the program's environment.  Its model records what the
    program can observe: the entries of [NOTES_DIR] in the order [readdir]
    yields them; what the card resolves each path below [NOTES_DIR] to,
    which need not be an entry of [NOTES_DIR] (the program builds paths
    from typed titles, and a title may hold [/] and [..]); the files
    elsewhere on the card that such paths reach; and which requests the
    card refuses. *)

Inductive d_type_t := DT_REG | DT_DIR | DT_LNK | DT_UNKNOWN.

Record File := mkFile {
  f_name : list byte;      (* d_name, without its terminator *)
  f_type : d_type_t;       (* d_type *)
  f_data : list byte;      (* the bytes a stream on it reads *)
  f_access : bool          (* whether fopen on it succeeds *)
}.

(** What the card resolves the path [NOTES_DIR ++ rel] to: the entry of
    [NOTES_DIR] of a given name (its own, for a plain file name; another
    one for [./5], or where names that differ in case are one file); a
    file elsewhere on the card, as [../x]; or nothing a stream opens on (a
    directory, a path through something that is none). *)
Inductive target :=
  | Here (name : list byte)
  | Elsewhere (name : list byte)
  | Nowhere.

#[global] Instance target_eq_dec : EqDecision target.
Proof. solve_decision. Defined.

Record FS := mkFS {
  fs_dir : option (list File);     (* None: NOTES_DIR does not exist *)
  fs_mkdir : bool;                 (* whether mkdir(NOTES_DIR) succeeds *)
  fs_creat : list byte → bool;     (* the rel a new file may be created under *)
  fs_resolve : list byte → target; (* what NOTES_DIR ++ rel designates *)
  fs_out : list File               (* the files elsewhere that are reached *)
}.

Definition set_dir (d : list File) (fs : FS) : FS :=
  mkFS (Some d) (fs_mkdir fs) (fs_creat fs) (fs_resolve fs) (fs_out fs).

Definition set_out (d : list File) (fs : FS) : FS :=
  mkFS (fs_dir fs) (fs_mkdir fs) (fs_creat fs) (fs_resolve fs) d.

(** Where a file is kept: in [NOTES_DIR], or elsewhere on the card. *)
Inductive place := InDir | Outside.

Definition files_at (p : place) (fs : FS) : list File :=
  match p with
  | InDir => default [] (fs_dir fs)
  | Outside => fs_out fs
  end.

Definition set_files (p : place) (d : list File) (fs : FS) : FS :=
  match p with
  | InDir => set_dir d fs
  | Outside => set_out d fs
  end.

Definition opendir (fs : FS) : option (list File) := fs_dir fs.

Definition mkdir (fs : FS) : FS :=
  match fs_dir fs with
  | None => if fs_mkdir fs then set_dir [] fs else fs
  | Some _ => fs
  end.

(** [snprintf(filepath, sizeof(filepath), "%s%s", NOTES_DIR, name)] into
    [char filepath[256]]: the concatenation, cut to 255 characters. *)
Definition filepath_of (name : list byte) : list byte :=
  take 255 (NOTES_DIR ++ cstr name).

Definition snprintf_path (name : list byte) : option (list byte) :=
  _ ← strlen name;
  Some (filepath_of name).

(** What follows [NOTES_DIR] in a path built by [snprintf_path]. *)
Definition entry_name (path : list byte) : list byte :=
  drop (length NOTES_DIR) path.

(** The file a path designates, as the card resolves it: where it is kept,
    and under which name.  Every path of the program runs through
    [NOTES_DIR], which has to exist. *)
Definition locate (fs : FS) (path : list byte) : option (place * list byte) :=
  _ ← fs_dir fs;
  match fs_resolve fs (entry_name path) with
  | Here name => Some (InDir, name)
  | Elsewhere name => Some (Outside, name)
  | Nowhere => None
  end.

Definition find_entry (name : list byte) (d : list File)
  : option (nat * File) :=
  list_find (λ f, f_name f = name) d.

(** [fopen(path, "rb")]: [None] is the null stream. *)
Definition fopen_rb (fs : FS) (path : list byte) : option (list byte) :=
  '(p, name) ← locate fs path;
  '(_, f) ← find_entry name (files_at p fs);
  if f_access f then Some (f_data f) else None.

Definition insert_at {A} (k : nat) (x : A) (l : list A) : list A :=
  take k l ++ x :: drop k l.

(** [fopen(path, "wb")]: the file the path designates is truncated when it
    exists; otherwise it is created where the path resolves to, under
    the name it resolves to, and placed at position [slot] of the
    enumeration, which the program does not control.  The stream is the
    place and index of the file.  [None] is the null stream. *)
Definition fopen_wb (fs : FS) (path : list byte) (slot : nat)
  : option (FS * (place * nat)) :=
  '(p, name) ← locate fs path;
  let d := files_at p fs in
  match find_entry name d with
  | Some (k, f) =>
      if f_access f
      then Some (set_files p (<[k := mkFile (f_name f) (f_type f) [] true]> d) fs,
                 (p, k))
      else None
  | None =>
      if fs_creat fs (entry_name path)
      then let k := (slot `min` length d)%nat in
           Some (set_files p (insert_at k (mkFile name DT_REG [] true) d) fs,
                 (p, k))
      else None
  end.

(** [fwrite(buf, 1, len, file)] on a stream opened by [fopen_wb]. *)
Definition fwrite (buf : list byte) (len : Z) (file : place * nat) (fs : FS)
  : option FS :=
  let '(p, k) := file in
  if decide (0 <= len <= Z.of_nat (length buf)) then
    let d := files_at p fs in
    f ← d !! k;
    Some (set_files p (<[k := mkFile (f_name f) (f_type f)
                               (f_data f ++ take (Z.to_nat len) buf)
                               (f_access f)]> d) fs)
  else None.

(** [fread(buf, 1, n, file)] on a stream holding [data]: the new buffer and
    the number of bytes read. *)
Definition fread (buf : list byte) (n : Z) (data : list byte)
  : option (list byte * Z) :=
  let got := take (Z.to_nat n) data in
  buf ← memcpy buf got (Z.of_nat (length got));
  Some (buf, Z.of_nat (length got)).

(** ** The text prompt and the key pad (environment) *)

Inductive SwkbdButton :=
  | SWKBD_BUTTON_LEFT
  | SWKBD_BUTTON_MIDDLE
  | SWKBD_BUTTON_RIGHT
  | SWKBD_BUTTON_NONE.

#[global] Instance SwkbdButton_eq_dec : EqDecision SwkbdButton.
Proof. solve_decision. Defined.

(** The masks of [3ds.h] the loop tests [hidKeysDown()] against. *)
Class HidKeys := mkHidKeys {
  KEY_A : Z;
  KEY_B : Z;
  KEY_START : Z;
  KEY_UP : Z;
  KEY_DOWN : Z
}.

(** libctru's values: A, B and START are bits 0, 1 and 3; UP and DOWN join
    the D-pad bits 6 and 7 with the circle-pad bits 30 and 31. *)
Definition libctru_keys : HidKeys :=
  mkHidKeys 1 2 8 (Z.lor (2 ^ 6) (2 ^ 30)) (Z.lor (2 ^ 7) (2 ^ 31)).

(** What the environment answers during one pass of the loop. *)
Record Input := mkInput {
  kDown : Z;                    (* hidKeysDown() *)
  swkbd_button : SwkbdButton;   (* the button that closes the prompt *)
  swkbd_text : list byte;       (* the text the prompt holds then *)
  creat_slot : nat              (* where the card lists a new file *)
}.

(** [kDown & key] as a condition. *)
Definition pressed (i : Input) (key : Z) : bool :=
  negb (Z.land (kDown i) key =? 0).

(** Modelled from the spec: the blocking text prompt of the input
    collaborator (libctru's [swkbdInputText], absent from the sources),
    which hands back a final text and the closing button.  The final text
    is left in the caller's buffer as a terminated string of fewer than
    [bufsize] bytes. *)
Definition swkbdInputText (buf : list byte) (bufsize : Z) (i : Input)
  : option (list byte) :=
  let text := take (Z.to_nat (bufsize - 1)) (cstr (swkbd_text i)) in
  if decide (Z.of_nat (length buf) < bufsize) then None else
  buf ← memcpy buf text (Z.of_nat (length text));
  poke buf (Z.of_nat (length text)) NUL.

(** ** Globals *)

Record State := mkState {
  notes : list Note;               (* static Note notes[MAX_NOTES] *)
  note_count : Z;
  selectedMenu : Z;
  selectedNote : Z;
  mode : AppMode;
  currentNoteContent : list byte;  (* char [NOTE_CONTENT_LEN] *)
  currentNoteTitle : list byte;    (* char [TITLE_LEN] *)
  sdmc : FS                        (* the card *)
}.

Definition set_notes v s :=
  mkState v (note_count s) (selectedMenu s) (selectedNote s) (mode s)
    (currentNoteContent s) (currentNoteTitle s) (sdmc s).
Definition set_note_count v s :=
  mkState (notes s) v (selectedMenu s) (selectedNote s) (mode s)
    (currentNoteContent s) (currentNoteTitle s) (sdmc s).
Definition set_selectedMenu v s :=
  mkState (notes s) (note_count s) v (selectedNote s) (mode s)
    (currentNoteContent s) (currentNoteTitle s) (sdmc s).
Definition set_selectedNote v s :=
  mkState (notes s) (note_count s) (selectedMenu s) v (mode s)
    (currentNoteContent s) (currentNoteTitle s) (sdmc s).
Definition set_mode v s :=
  mkState (notes s) (note_count s) (selectedMenu s) (selectedNote s) v
    (currentNoteContent s) (currentNoteTitle s) (sdmc s).
Definition set_currentNoteContent v s :=
  mkState (notes s) (note_count s) (selectedMenu s) (selectedNote s) (mode s)
    v (currentNoteTitle s) (sdmc s).
Definition set_currentNoteTitle v s :=
  mkState (notes s) (note_count s) (selectedMenu s) (selectedNote s) (mode s)
    (currentNoteContent s) v (sdmc s).
Definition set_sdmc v s :=
  mkState (notes s) (note_count s) (selectedMenu s) (selectedNote s) (mode s)
    (currentNoteContent s) (currentNoteTitle s) v.

(** [notes[i]] for an [int] index. *)
Definition note_at (ns : list Note) (i : Z) : option Note :=
  if decide (0 <= i) then ns !! Z.to_nat i else None.

Definition empty_note : Note :=
  mkNote (zeroed TITLE_LEN) (zeroed NOTE_CONTENT_LEN).

(** The statics as the loader leaves them, on a given card. *)
Definition boot (fs : FS) : State :=
  mkState (replicate (Z.to_nat MAX_NOTES) empty_note) 0 0 (-1) MODE_MENU
    (zeroed NOTE_CONTENT_LEN) (zeroed TITLE_LEN) fs.

(** ** File operations *)

Definition ensure_notes_directory (fs : FS) : FS :=
  match opendir fs with
  | None => mkdir fs
  | Some _ => fs
  end.

(** One pass of the body of the [readdir] loop of [load_notes]. *)
Definition load_entry (fs : FS) (entry : File) (st : list Note * Z)
  : option (list Note * Z) :=
  let '(ns, count) := st in
  match f_type entry with
  | DT_REG =>
      let d_name := f_name entry ++ [NUL] in
      filepath ← snprintf_path d_name;
      match fopen_rb fs filepath with
      | Some file =>
          note ← note_at ns count;
          t ← safe_string_copy (Ref (title note)) (Ref d_name) TITLE_LEN
                ≫= deref;
          '(c, len) ← fread (content note) (NOTE_CONTENT_LEN - 1) file;
          c ← poke c len NUL;
          count' ← int (count + 1);
          Some (<[Z.to_nat count := mkNote t c]> ns, count')
      | None => Some st
      end
  | _ => Some st
  end.

Fixpoint readdir_loop (fs : FS) (entries : list File) (st : list Note * Z)
  : option (list Note * Z) :=
  match entries with
  | [] => Some st
  | entry :: rest =>
      if st.2 <? MAX_NOTES
      then st' ← load_entry fs entry st; readdir_loop fs rest st'
      else Some st
  end.

Definition load_notes (s : State) : option State :=
  let s := set_sdmc (ensure_notes_directory (sdmc s)) s in
  let s := set_note_count 0 s in
  match opendir (sdmc s) with
  | None => Some s
  | Some entries =>
      '(ns, count) ← readdir_loop (sdmc s) entries (notes s, note_count s);
      Some (set_note_count count (set_notes ns s))
  end.

Definition save_note (title content : list byte) (slot : nat) (fs : FS)
  : option FS :=
  let fs := ensure_notes_directory fs in
  filepath ← snprintf_path title;
  match fopen_wb fs filepath slot with
  | Some (fs, file) =>
      len ← strlen content;
      if 0 <? len then fwrite content len file fs else Some fs
  | None => Some fs
  end.

(** ** Main function: one pass of the loop *)

(** [if (cond) { body }] on the globals. *)
Definition on (cond : bool) (body : State → option State) (s : State)
  : option State :=
  if cond then body s else Some s.

(** Menu, UP: [selectedMenu = (selectedMenu - 1 + 2) % 2]. *)
Definition menu_key_up (s : State) : option State :=
  a ← int (selectedMenu s - 1);
  b ← int (a + 2);
  v ← int_mod b 2;
  Some (set_selectedMenu v s).

(** Menu, DOWN: [selectedMenu = (selectedMenu + 1) % 2]. *)
Definition menu_key_down (s : State) : option State :=
  a ← int (selectedMenu s + 1);
  v ← int_mod a 2;
  Some (set_selectedMenu v s).

(** Menu, A on "New Note". *)
Definition new_note (i : Input) (s : State) : option State :=
  let s := set_currentNoteContent (zeroed NOTE_CONTENT_LEN) s in
  let s := set_currentNoteTitle (zeroed TITLE_LEN) s in
  (* get note title first *)
  buf ← swkbdInputText (currentNoteTitle s) TITLE_LEN i;
  let s := set_currentNoteTitle buf s in
  if decide (swkbd_button i = SWKBD_BUTTON_RIGHT) then
    title_len ← strlen (currentNoteTitle s);
    if (0 <? title_len) && (note_count s <? MAX_NOTES) then
      (* create new note *)
      note ← note_at (notes s) (note_count s);
      t ← safe_string_copy (Ref (title note)) (Ref (currentNoteTitle s))
            TITLE_LEN ≫= deref;
      c ← poke (content note) 0 NUL;
      let s := set_notes (<[Z.to_nat (note_count s) := mkNote t c]> (notes s)) s in
      fs ← save_note (currentNoteTitle s) [NUL] (creat_slot i) (sdmc s);
      let s := set_sdmc fs s in
      (* switch to view mode for the new note *)
      let s := set_selectedNote (note_count s) s in
      count ← int (note_count s + 1);
      let s := set_note_count count s in
      Some (set_mode MODE_VIEW_NOTE s)
    else Some s
  else Some s.

(** Menu, A on "View Notes". *)
Definition view_notes (s : State) : option State :=
  if 0 <? note_count s
  then Some (set_selectedNote 0 (set_mode MODE_NOTE_LIST s))
  else Some s.

Definition menu_key_a (i : Input) (s : State) : option State :=
  if selectedMenu s =? 0 then new_note i s else view_notes s.

(** Note list, B. *)
Definition list_key_b (s : State) : option State :=
  Some (set_mode MODE_MENU s).

(** Note list, UP:
    [selectedNote = (selectedNote - 1 + note_count) % note_count]. *)
Definition list_key_up (s : State) : option State :=
  a ← int (selectedNote s - 1);
  b ← int (a + note_count s);
  v ← int_mod b (note_count s);
  Some (set_selectedNote v s).

(** Note list, DOWN: [selectedNote = (selectedNote + 1) % note_count]. *)
Definition list_key_down (s : State) : option State :=
  a ← int (selectedNote s + 1);
  v ← int_mod a (note_count s);
  Some (set_selectedNote v s).

(** Note list, A with a selection. *)
Definition list_key_a (s : State) : option State :=
  Some (set_mode MODE_VIEW_NOTE s).

(** View, B. *)
Definition view_key_b (s : State) : option State :=
  let s := set_mode MODE_NOTE_LIST s in
  (* if we were viewing a new note *)
  if note_count s <=? selectedNote s
  then Some (set_mode MODE_MENU s)
  else Some s.

(** View, A: add a line to the note. *)
Definition add_line (i : Input) (s : State) : option State :=
  buf ← swkbdInputText (currentNoteContent s) NOTE_CONTENT_LEN i;
  let s := set_currentNoteContent buf s in
  if decide (swkbd_button i = SWKBD_BUTTON_RIGHT) then
    note ← note_at (notes s) (selectedNote s);
    note ← append_to_note (Ref note) (Ref (currentNoteContent s)) ≫= deref;
    let s := set_notes (<[Z.to_nat (selectedNote s) := note]> (notes s)) s in
    saved ← note_at (notes s) (selectedNote s);
    fs ← save_note (title saved) (content saved) (creat_slot i) (sdmc s);
    Some (set_sdmc fs s)
  else Some s.

Section MainLoop.
Context `{HidKeys}.

Definition menu_input (i : Input) (s : State) : option State :=
  s ← on (pressed i KEY_UP) menu_key_up s;
  s ← on (pressed i KEY_DOWN) menu_key_down s;
  on (pressed i KEY_A) (menu_key_a i) s.

Definition note_list_input (i : Input) (s : State) : option State :=
  s ← on (pressed i KEY_B) list_key_b s;
  s ← on (pressed i KEY_UP) list_key_up s;
  s ← on (pressed i KEY_DOWN) list_key_down s;
  on (pressed i KEY_A && (0 <=? selectedNote s)) list_key_a s.

Definition view_note_input (i : Input) (s : State) : option State :=
  s ← on (pressed i KEY_B) view_key_b s;
  on (pressed i KEY_A) (add_line i) s.

(** The [break] that opens the body of the loop. *)
Definition quits (i : Input) (s : State) : bool :=
  bool_decide (mode s = MODE_MENU) && pressed i KEY_START.

(** The input handling of one pass; the drawing that follows reads the
    globals and changes none. *)
Definition frame (i : Input) (s : State) : option State :=
  match mode s with
  | MODE_MENU => menu_input i s
  | MODE_NOTE_LIST => note_list_input i s
  | MODE_VIEW_NOTE => view_note_input i s
  | MODE_EDIT_NOTE => Some s
  end.

(** The loop over the answers of the environment, one per pass; it ends
    at the [break] or when [aptMainLoop()] fails (no answer left). *)
Fixpoint main_loop (ins : list Input) (s : State) : option State :=
  match ins with
  | [] => Some s
  | i :: ins' =>
      if quits i s then Some s
      else s' ← frame i s; main_loop ins' s'
  end.

(** [main] on a card, once the graphics are set up (otherwise it jumps to
    [cleanup] before loading anything): the globals when the loop is
    left. *)
Definition main (fs : FS) (ins : list Input) : option State :=
  s ← load_notes (boot fs);
  main_loop ins s.

(** The states in which a pass of the loop can start. *)
Inductive reachable : State → Prop :=
  | reach_load fs s :
      load_notes (boot fs) = Some s → reachable s
  | reach_frame i s s' :
      reachable s → quits i s = false → frame i s = Some s' →
      reachable s'.

End MainLoop.

(** ** Well-formed memory *)

Definition terminated (m : list byte) : Prop := NUL ∈ m.

(** A [char] array of [n] bytes that holds a string. *)
Definition buffer (n : Z) (m : list byte) : Prop :=
  length m = Z.to_nat n ∧ terminated m.

Definition wf_note (n : Note) : Prop :=
  buffer TITLE_LEN (title n) ∧ buffer NOTE_CONTENT_LEN (content n).

Definition mem_ok (s : State) : Prop :=
  length (notes s) = Z.to_nat MAX_NOTES ∧
  Forall wf_note (notes s) ∧
  buffer NOTE_CONTENT_LEN (currentNoteContent s) ∧
  buffer TITLE_LEN (currentNoteTitle s).

Definition sel_in_range (s : State) : Prop :=
  0 <= selectedNote s < note_count s.

Definition wf_state (s : State) : Prop :=
  mem_ok s ∧
  0 <= note_count s <= MAX_NOTES ∧
  (selectedMenu s = 0 ∨ selectedMenu s = 1) ∧
  (selectedNote s = -1 ∨ sel_in_range s) ∧
  match mode s with
  | MODE_MENU => True
  | MODE_NOTE_LIST | MODE_VIEW_NOTE => sel_in_range s
  | MODE_EDIT_NOTE => False
  end.

(** The regular files of a listing. *)
Definition is_reg (f : File) : bool :=
  match f_type f with DT_REG => true | _ => false end.

Definition count_reg (d : list File) : Z :=
  Z.of_nat (length (filter (λ f, is_reg f = true) d)).

(** ** Sample cards and answers *)

Definition bytes (s : string) : list byte := list_byte_of_string s.

(** The root of the sample cards holds [NOTES_DIR] and, beside it, files
    only; [NOTES_DIR] holds files only.  Their paths resolve component by
    component: empty components and [.] stay, [..] leads to the root (and
    stays there), [3ds.md] in the root leads back, and a last component
    names a file of the directory reached. *)
Definition SLASH : byte := "/"%byte.

Fixpoint components (rel : list byte) : list (list byte) :=
  match rel with
  | [] => [[]]
  | b :: rel' =>
      if Byte.eqb b SLASH then [] :: components rel'
      else match components rel' with
           | c :: cs => (b :: c) :: cs
           | [] => [[b]]
           end
  end.

Inductive card_dir := AtNotes | AtRoot.

Fixpoint walk (from : card_dir) (cs : list (list byte)) : target :=
  match cs with
  | [] => Nowhere                    (* the path ends on a directory *)
  | c :: cs' =>
      if bool_decide (c = [] ∨ c = bytes ".") then walk from cs'
      else if bool_decide (c = bytes "..") then walk AtRoot cs'
      else match from, cs' with
           | AtNotes, [] => Here c
           | AtNotes, _ :: _ => Nowhere     (* through a file *)
           | AtRoot, [] =>
               if bool_decide (c = bytes "3ds.md") then Nowhere else Elsewhere c
           | AtRoot, _ :: _ =>
               if bool_decide (c = bytes "3ds.md") then walk AtNotes cs'
               else Nowhere                 (* through a file, or nothing *)
           end
  end.

Definition card_resolve (rel : list byte) : target :=
  walk AtNotes (components rel).

Definition card_of (d : list File) : FS :=
  mkFS (Some d) true (λ _, true) card_resolve [].

Definition empty_card : FS := card_of [].

(** Ten regular files, named "0" to "9". *)
Definition full_card : FS :=
  card_of ((λ c, mkFile [c] DT_REG [] true) <$> bytes "0123456789").

(** Twelve regular files, named "a" to "l". *)
Definition twelve_card : FS :=
  card_of ((λ c, mkFile [c] DT_REG (bytes "x") true) <$> bytes "abcdefghijkl").

(** What the screens show of a state: the count, and title and content of
    each note below it; and the files of the card. *)
Definition shown (s : State) : Z * list (list byte * list byte) :=
  (note_count s,
   (λ n, (cstr (title n), cstr (content n))) <$>
     take (Z.to_nat (note_count s)) (notes s)).

Definition files (s : State) : list (list byte * list byte) :=
  (λ f, (f_name f, f_data f)) <$> default [] (fs_dir (sdmc s)).

(** A note whose content holds 1020 characters. *)
Definition long_note : Note :=
  mkNote (bytes "todo" ++ zeroed 28) (replicate 1020 "a"%byte ++ zeroed 4).

(** A pass in which the keys [k] go down and no prompt is answered. *)
Definition keys (k : Z) : Input := mkInput k SWKBD_BUTTON_NONE [] 0.

(** A pass in which the keys [k] go down and the prompt is closed with its
    right button on [text]. *)
Definition typed (k : Z) (text : string) : Input :=
  mkInput k SWKBD_BUTTON_RIGHT (bytes text) 0.

(** [main] with libctru's key masks, when it is defined. *)
Definition run (fs : FS) (ins : list Input) : State :=
  default (boot fs) (@main libctru_keys fs ins).

(** The passes that create a note from the menu and return to the menu. *)
Definition create_and_leave (t : string) : list Input :=
  [typed (@KEY_A libctru_keys) t; keys (@KEY_B libctru_keys);
   keys (@KEY_B libctru_keys)].

Definition ten_titles : list string :=
  ["n0"; "n1"; "n2"; "n3"; "n4"; "n5"; "n6"; "n7"; "n8"; "n9"]%string.

Definition ten_notes : list Input :=
  concat (create_and_leave <$> ten_titles).

(** Three notes created, then "View Notes": the list, at index 0. *)
Definition three_listed : list Input :=
  concat (create_and_leave <$> ["a"; "b"; "c"]%string) ++
  [keys (@KEY_DOWN libctru_keys); keys (@KEY_A libctru_keys)].

(** ** What saving and loading amount to *)

(** The card after [save_note] on a terminated title and content: the file
    the path designates is rewritten, or created at [slot], when the card
    lets the stream open; otherwise only the directory was ensured. *)
Definition saved_card (title content : list byte) (slot : nat) (fs : FS) : FS :=
  let fs1 := ensure_notes_directory fs in
  let path := filepath_of title in
  match locate fs1 path with
  | None => fs1
  | Some (p, name) =>
      let d := files_at p fs1 in
      match find_entry name d with
      | Some (k, f) =>
          if f_access f
          then set_files p (<[k := mkFile (f_name f) (f_type f) (cstr content) true]> d) fs1
          else fs1
      | None =>
          if fs_creat fs1 (entry_name path)
          then set_files p (insert_at (slot `min` length d)
                              (mkFile name DT_REG (cstr content) true) d) fs1
          else fs1
      end
  end.

(** A plain file name: not empty, no path separator, neither [.] nor
    [..]. *)
Definition plain (name : list byte) : Prop :=
  name ≠ [] ∧ (SLASH ∉ name) ∧ name ≠ bytes "." ∧ name ≠ bytes "..".

(** The stream [load_notes] opens on an entry, and whether it loads it. *)
Definition opens (fs : FS) (entry : File) : option (list byte) :=
  fopen_rb fs (filepath_of (f_name entry ++ [NUL])).

Definition loadable (fs : FS) (entry : File) : bool :=
  is_reg entry && bool_decide (is_Some (opens fs entry)).

(** Title and content, as strings, of the note an entry is loaded into. *)
Definition loaded_note (fs : FS) (entry : File) : list byte * list byte :=
  (take 31 (cstr (f_name entry)),
   cstr (take 1023 (default [] (opens fs entry)))).

(** A store that keeps what another holds: no fewer notes, the same
    titles, and contents that only got longer. *)
Definition keeps (s s' : State) : Prop :=
  note_count s <= note_count s' ∧
  ∀ j note, (j < Z.to_nat (note_count s))%nat → notes s !! j = Some note →
    ∃ note', notes s' !! j = Some note' ∧ title note' = title note ∧
             cstr (content note) `prefix_of` cstr (content note').

(** [append_to_note] called on one line after the other, as successive
    "Add Line" entries do on the selected note. *)
Fixpoint append_lines (note : Note) (lines : list (list byte)) : option Note :=
  match lines with
  | [] => Some note
  | l :: ls =>
      note' ← append_to_note (Ref note) (Ref (l ++ [NUL])) ≫= deref;
      append_lines note' ls
  end.

(** * Properties *)

(** ** C strings *)

Lemma is_nul_true b : is_nul b = true ↔ b = NUL.
Proof.
  unfold is_nul. split.
  - apply Byte.byte_dec_bl.
  - intros ->. reflexivity.
Qed.

Lemma is_nul_false b : is_nul b = false ↔ b ≠ NUL.
Proof.
  rewrite <- is_nul_true. destruct (is_nul b); split; congruence.
Qed.

Lemma cstr_app_nul t rest : NUL ∉ t → cstr (t ++ NUL :: rest) = t.
Proof.
  induction t as [|b t IH]; intros Hn; simpl.
  - reflexivity.
  - apply not_elem_of_cons in Hn as [Hb Ht].
    apply not_eq_sym, is_nul_false in Hb. rewrite Hb, IH; auto.
Qed.

Lemma strlen_app_nul t rest :
  NUL ∉ t → strlen (t ++ NUL :: rest) = Some (Z.of_nat (length t)).
Proof.
  induction t as [|b t IH]; intros Hn; simpl.
  - reflexivity.
  - apply not_elem_of_cons in Hn as [Hb Ht].
    apply not_eq_sym, is_nul_false in Hb. rewrite Hb, IH; auto.
    simpl. f_equal. lia.
Qed.

Lemma cstr_no_nul m : NUL ∉ cstr m.
Proof.
  induction m as [|b m IH]; simpl.
  - apply not_elem_of_nil.
  - destruct (is_nul b) eqn:E.
    + apply not_elem_of_nil.
    + apply not_elem_of_cons. split; auto.
      apply not_eq_sym, is_nul_false, E.
Qed.

(** A terminated area splits at its terminator. *)
Lemma terminated_split m :
  terminated m → ∃ rest, m = cstr m ++ NUL :: rest.
Proof.
  unfold terminated. induction m as [|b m IH]; intros Hin.
  - by apply elem_of_nil in Hin.
  - simpl. destruct (is_nul b) eqn:E.
    + apply is_nul_true in E as ->. by exists m.
    + apply elem_of_cons in Hin as [Hb|Hm].
      * apply is_nul_false in E. congruence.
      * destruct (IH Hm) as [rest Hr]. exists rest. simpl. by f_equal.
Qed.

Lemma strlen_terminated m n : strlen m = Some n → terminated m.
Proof.
  unfold terminated. revert n. induction m as [|b m IH]; intros n; simpl.
  - discriminate.
  - destruct (is_nul b) eqn:E.
    + intros _. apply is_nul_true in E as ->. apply list_elem_of_here.
    + destruct (strlen m) eqn:Em; [|discriminate].
      intros _. apply list_elem_of_further. eauto.
Qed.

Lemma terminated_strlen m :
  terminated m → strlen m = Some (Z.of_nat (length (cstr m))).
Proof.
  intros Hm. destruct (terminated_split m Hm) as [rest Hr].
  rewrite Hr at 1. apply strlen_app_nul, cstr_no_nul.
Qed.

Lemma strlen_length m n :
  strlen m = Some n → n = Z.of_nat (length (cstr m)).
Proof.
  intros Hs. pose proof (strlen_terminated _ _ Hs) as Ht.
  apply terminated_strlen in Ht. congruence.
Qed.

Lemma cstr_length_lt m : terminated m → (length (cstr m) < length m)%nat.
Proof.
  intros Hm. destruct (terminated_split m Hm) as [rest Hr].
  rewrite Hr at 2. rewrite length_app. simpl. lia.
Qed.

(** ** The buffer utilities *)

Lemma memcpy_Some dest src n :
  0 <= n → (Z.to_nat n ≤ length dest)%nat → (Z.to_nat n ≤ length src)%nat →
  memcpy dest src n = Some (take (Z.to_nat n) src ++ drop (Z.to_nat n) dest).
Proof. intros. unfold memcpy. rewrite decide_True; auto. Qed.

Lemma poke_Some m i b :
  0 <= i < Z.of_nat (length m) → poke m i b = Some (<[Z.to_nat i := b]> m).
Proof. intros. unfold poke. rewrite decide_True; auto. Qed.

Lemma size_t_small z : 0 <= z < 2 ^ 32 → size_t z = z.
Proof. intros. unfold size_t, SIZE_WIDTH. apply Z.mod_small. lia. Qed.

Lemma insert_app_cons_0 (t : list byte) b l :
  (length t < length (t ++ l))%nat →
  <[length t := b]> (t ++ l) = t ++ b :: drop 1 l.
Proof.
  intros Hl. rewrite insert_app_r_alt by lia. rewrite Nat.sub_diag.
  destruct l; simpl in *; [rewrite length_app in Hl; simpl in Hl; lia|].
  by rewrite drop_0.
Qed.

(** What [safe_string_copy] leaves in a destination of capacity [c ≥ 1]:
    the first [min (strlen src) (c - 1)] characters of the source, a
    terminator, and the bytes the destination held after that. *)
Lemma safe_string_copy_spec dest src c n :
  strlen src = Some n → 0 < c < 2 ^ 32 → c <= Z.of_nat (length dest) →
  let t := take (Z.to_nat (c - 1)) (cstr src) in
  safe_string_copy (Ref dest) (Ref src) c
  = Some (Ref (t ++ NUL :: drop (S (length t)) dest)).
Proof.
  intros Hs Hc Hd t. unfold safe_string_copy.
  destruct (Z.eqb_spec c 0) as [|_]; [lia|].
  cbn [is_null orb deref mbind option_bind]. rewrite Hs. simpl.
  pose proof (strlen_length _ _ Hs) as Hn.
  pose proof (cstr_length_lt _ (strlen_terminated _ _ Hs)) as Hlt.
  destruct (terminated_split _ (strlen_terminated _ _ Hs)) as [rest Hr].
  rewrite size_t_small by lia.
  set (k := if n <? c - 1 then n else c - 1).
  assert (Hk : 0 <= k ∧ k <= n ∧ k <= c - 1 ∧ Z.to_nat k = length t).
  { subst k t. rewrite length_take. destruct (Z.ltb_spec n (c - 1)); lia. }
  destruct Hk as (Hk0 & Hkn & Hkc & Hkt).
  rewrite memcpy_Some by lia. simpl.
  assert (Ht : take (Z.to_nat k) src = t).
  { subst t. revert Hr Hkt. generalize (cstr src) as u. intros u -> Hkt.
    rewrite take_app_le by (rewrite Hkt, length_take; lia).
    rewrite Hkt, length_take, <- take_take. by rewrite (take_ge u (length u)). }
  rewrite Ht. rewrite poke_Some.
  2:{ rewrite length_app, length_drop. lia. }
  cbn [mbind option_bind]. rewrite Hkt. do 2 f_equal.
  rewrite insert_app_cons_0.
  2:{ rewrite length_app, length_drop. lia. }
  rewrite drop_drop. do 3 f_equal. lia.
Qed.

(** The null guards: the call returns at once. *)
Lemma safe_string_copy_null (p : ptr (list byte)) c :
  safe_string_copy NULL p c = Some NULL ∧ safe_string_copy p NULL c = Some p.
Proof. split; [reflexivity|]. by destruct p. Qed.

Lemma append_to_note_null note new_content :
  append_to_note NULL new_content = Some NULL ∧
  append_to_note note NULL = Some note.
Proof. split; [reflexivity|]. by destruct note. Qed.

Lemma take_cstr_no_nul k m : NUL ∉ take k (cstr m).
Proof.
  intros Hin. apply (cstr_no_nul m). by apply (subseteq_take k (cstr m)).
Qed.

(** C3, amended: on a destination of at least [c] bytes and a terminated
    source, a capacity [c = 0] leaves the destination untouched; a
    capacity [c ≥ 1] leaves, within the first [c] bytes, a terminated
    string of at most [c - 1] characters, the first [c - 1] of the source:
    the source itself when shorter than [c], nothing when it is empty.
    Past the terminator the destination keeps its bytes, so nothing at
    offset [c] or beyond is written, and the string left does not depend
    on what the destination held. *)
Theorem safe_string_copy_bounded dest src c n :
  strlen src = Some n → 0 <= c < 2 ^ 32 → c <= Z.of_nat (length dest) →
  (c = 0 → safe_string_copy (Ref dest) (Ref src) c = Some (Ref dest)) ∧
  (0 < c → ∃ r,
     safe_string_copy (Ref dest) (Ref src) c = Some (Ref r) ∧
     length r = length dest ∧
     terminated (take (Z.to_nat c) r) ∧
     Z.of_nat (length (cstr r)) <= c - 1 ∧
     cstr r = take (Z.to_nat (c - 1)) (cstr src) ∧
     (n < c → cstr r = cstr src) ∧
     (cstr src = [] → cstr r = []) ∧
     r = cstr r ++ NUL :: drop (S (length (cstr r))) dest ∧
     drop (Z.to_nat c) r = drop (Z.to_nat c) dest).
Proof.
  intros Hs Hc Hd. split.
  - intros ->. reflexivity.
  - intros Hpos. eexists. split.
    { apply (safe_string_copy_spec dest src c n); auto; lia. }
    set (t := take (Z.to_nat (c - 1)) (cstr src)).
    assert (Hnt : NUL ∉ t) by apply take_cstr_no_nul.
    assert (Hlen : (length t ≤ Z.to_nat (c - 1))%nat).
    { subst t. rewrite length_take. lia. }
    assert (Hcs : cstr (t ++ NUL :: drop (S (length t)) dest) = t)
      by (by apply cstr_app_nul).
    rewrite Hcs.
    split; [|split; [|split; [|split; [|split; [|split; [|split]]]]]].
    + rewrite length_app. simpl. rewrite length_drop. lia.
    + unfold terminated. rewrite take_app_ge by lia.
      apply elem_of_app. right.
      replace (Z.to_nat c - length t)%nat with (S (Z.to_nat c - length t - 1)) by lia.
      simpl. apply list_elem_of_here.
    + lia.
    + reflexivity.
    + intros Hnc. subst t. apply take_ge.
      apply strlen_length in Hs. lia.
    + intros He. subst t. rewrite He. by rewrite take_nil.
    + reflexivity.
    + rewrite drop_app_ge by lia.
      replace (Z.to_nat c - length t)%nat with (S (Z.to_nat c - length t - 1)) by lia.
      simpl. rewrite drop_drop. f_equal. lia.
Qed.

Lemma safe_string_copy_bounded_witness :
  strlen (bytes "hello" ++ [NUL]) = Some 5 ∧
  ∃ r, safe_string_copy (Ref (zeroed 4)) (Ref (bytes "hello" ++ [NUL])) 4
       = Some (Ref r) ∧
       cstr r = take 3 (bytes "hello") ∧ length r = 4%nat.
Proof.
  split; [reflexivity|].
  destruct (safe_string_copy_bounded (zeroed 4) (bytes "hello" ++ [NUL]) 4 5)
    as [_ Hpos]; [reflexivity | lia | simpl; lia |].
  destruct Hpos as (r & Hr & Hlen & _ & _ & Hc & _); [lia|].
  exists r. split; [exact Hr|]. split; [exact Hc | exact Hlen].
Defined.

(** C3 as stated fails for the capacity zero: the guard returns before
    any write, and a destination holding "abc" still holds it, where an
    empty, terminated result of length at most [c - 1] is promised. *)
Lemma safe_string_copy_zero_capacity :
  let dest := bytes "abc" ++ [NUL] in
  let src := bytes "x" ++ [NUL] in
  ∃ r, safe_string_copy (Ref dest) (Ref src) 0 = Some (Ref r) ∧
       cstr r = bytes "abc" ∧ cstr r ≠ [] ∧
       ¬ terminated (take (Z.to_nat 0) r) ∧
       ¬ (Z.of_nat (length (cstr r)) <= 0 - 1).
Proof.
  simpl. eexists. split; [reflexivity|].
  split; [reflexivity|]. split; [discriminate|].
  split; [|simpl; lia].
  unfold terminated. simpl. apply not_elem_of_nil.
Qed.

Lemma cstr_app_no_nul t m : NUL ∉ t → cstr (t ++ m) = t ++ cstr m.
Proof.
  induction t as [|b t IH]; intros Hn; simpl; [reflexivity|].
  apply not_elem_of_cons in Hn as [Hb Ht].
  apply not_eq_sym, is_nul_false in Hb. rewrite Hb, IH; auto.
Qed.

Lemma append_to_note_cases note new_content L N :
  length (content note) = Z.to_nat NOTE_CONTENT_LEN →
  strlen (content note) = Some L →
  strlen new_content = Some N →
  L + N + 2 < 2 ^ 32 →
  ∃ note',
    append_to_note (Ref note) (Ref new_content) = Some (Ref note') ∧
    title note' = title note ∧
    length (content note') = length (content note) ∧
    (L + N + 2 < NOTE_CONTENT_LEN →
       terminated (content note') ∧
       cstr (content note') =
         cstr (content note) ++ (if 0 <? L then [LF] else []) ++ cstr new_content) ∧
    (NOTE_CONTENT_LEN <= L + N + 2 → note' = note).
Proof.
  intros Hlen HL HN Hwrap. unfold append_to_note.
  cbn [is_null orb deref mbind option_bind]. rewrite HL, HN. simpl.
  pose proof (strlen_length _ _ HL) as HLl.
  pose proof (strlen_length _ _ HN) as HNl.
  pose proof (cstr_length_lt _ (strlen_terminated _ _ HL)) as HLlt.
  destruct (terminated_split _ (strlen_terminated _ _ HL)) as [rest Hr].
  rewrite (size_t_small (L + N)) by lia.
  rewrite size_t_small by lia.
  unfold NOTE_CONTENT_LEN in *.
  destruct (Z.leb_spec 1024 (L + N + 2)) as [Hfull|Hroom].
  { exists note. do 3 (split; [reflexivity|]). split; [lia | reflexivity]. }
  assert (Hrest : length rest = (1023 - length (cstr (content note)))%nat).
  { apply (f_equal length) in Hr. rewrite length_app in Hr. simpl in Hr. lia. }
  pose proof (cstr_no_nul (content note)) as Hnu.
  pose proof (cstr_no_nul new_content) as Hnn.
  destruct (Z.ltb_spec 0 L) as [Hpos|Hzero].
  - (* a separator is written over the terminator *)
    rewrite poke_Some by lia. simpl.
    rewrite size_t_small by lia.
    rewrite size_t_small by lia.
    set (u := cstr (content note)) in *.
    assert (Hbuf : <[Z.to_nat L := LF]> (content note) = u ++ LF :: rest).
    { rewrite Hr. replace (Z.to_nat L) with (length u) by lia.
      rewrite insert_app_cons_0 by (rewrite length_app; simpl; lia).
      simpl. by rewrite drop_0. }
    rewrite Hbuf.
    replace (Z.to_nat (L + 1)) with (S (length u)) by lia.
    assert (Hd : drop (S (length u)) (u ++ LF :: rest) = rest).
    { rewrite drop_app_ge by lia.
      replace (S (length u) - length u)%nat with 1%nat by lia.
      simpl. by rewrite drop_0. }
    assert (Ht : take (S (length u)) (u ++ LF :: rest) = u ++ [LF]).
    { rewrite take_app_ge by lia.
      replace (S (length u) - length u)%nat with 1%nat by lia.
      simpl. by rewrite take_0. }
    rewrite Hd, Ht.
    rewrite (safe_string_copy_spec rest new_content (1024 - (L + 1)) N) by (auto; lia).
    simpl. eexists. split; [reflexivity|]. simpl.
    rewrite (take_ge (cstr new_content)) by lia.
    split; [reflexivity|]. split.
    { rewrite !length_app. simpl. rewrite length_drop. lia. }
    split; [|lia]. intros _. split.
    { unfold terminated. rewrite !elem_of_app. right. right. apply list_elem_of_here. }
    rewrite <- !app_assoc. rewrite cstr_app_no_nul by auto. f_equal.
    simpl. rewrite cstr_app_nul by auto. reflexivity.
  - (* the first line *)
    assert (L = 0) as -> by lia. simpl.
    rewrite size_t_small by lia.
    change (Z.to_nat 0) with 0%nat. rewrite drop_0. change (1024 - 0) with 1024.
    rewrite (safe_string_copy_spec (content note) new_content 1024 N) by (auto; lia).
    simpl. eexists. split; [reflexivity|]. simpl.
    rewrite (take_ge (cstr new_content)) by lia.
    split; [reflexivity|]. split.
    { rewrite !length_app. simpl. rewrite length_drop. lia. }
    split; [|lia]. intros _. split.
    { unfold terminated. rewrite !elem_of_app. right. apply list_elem_of_here. }
    rewrite cstr_app_nul by auto.
    destruct (cstr (content note)); [reflexivity|simpl in HLl; lia].
Qed.

(** C2: on a note whose content array has its [NOTE_CONTENT_LEN] bytes
    and holds a string of length [L], and a text of length [N] (the two
    sharing a 32-bit address space), [append_to_note] appends exactly when
    [L + N + 2 < NOTE_CONTENT_LEN]: the content becomes the old one, a line
    feed if it was not empty, and the whole text; otherwise the note is
    unchanged, byte for byte. *)
Theorem append_to_note_spec note new_content L N :
  length (content note) = Z.to_nat NOTE_CONTENT_LEN →
  strlen (content note) = Some L →
  strlen new_content = Some N →
  Z.of_nat (length (content note)) + Z.of_nat (length new_content) < 2 ^ 32 →
  ∃ note',
    append_to_note (Ref note) (Ref new_content) = Some (Ref note') ∧
    title note' = title note ∧
    length (content note') = length (content note) ∧
    (L + N + 2 < NOTE_CONTENT_LEN →
       terminated (content note') ∧
       cstr (content note') =
         cstr (content note) ++ (if 0 <? L then [LF] else []) ++ cstr new_content) ∧
    (NOTE_CONTENT_LEN <= L + N + 2 → note' = note).
Proof.
  intros Hlen HL HN Hfit. apply append_to_note_cases; auto.
  pose proof (cstr_length_lt _ (strlen_terminated _ _ HL)).
  pose proof (cstr_length_lt _ (strlen_terminated _ _ HN)).
  apply strlen_length in HL, HN. lia.
Qed.

(** ** Well-formed buffers stay well-formed *)

Lemma buffer_strlen n m :
  buffer n m →
  ∃ L, strlen m = Some L ∧ 0 <= L < n ∧ L = Z.of_nat (length (cstr m)).
Proof.
  intros [Hlen Ht]. exists (Z.of_nat (length (cstr m))).
  split; [by apply terminated_strlen|].
  pose proof (cstr_length_lt m Ht). split; lia.
Qed.

Lemma safe_string_copy_buffer c dest src :
  buffer c dest → terminated src → 0 < c < 2 ^ 32 →
  ∃ r, safe_string_copy (Ref dest) (Ref src) c = Some (Ref r) ∧ buffer c r ∧
       cstr r = take (Z.to_nat (c - 1)) (cstr src).
Proof.
  intros [Hlen Hd] Hs Hc.
  pose proof (terminated_strlen src Hs) as Hn.
  rewrite (safe_string_copy_spec dest src c _ Hn) by lia.
  eexists. split; [reflexivity|].
  pose proof (take_cstr_no_nul (Z.to_nat (c - 1)) src) as Hnt.
  split; [split|].
  - rewrite length_app. simpl. rewrite length_drop, length_take. lia.
  - unfold terminated. apply elem_of_app. right. apply list_elem_of_here.
  - by apply cstr_app_nul.
Qed.

Lemma swkbdInputText_buffer n buf i :
  length buf = Z.to_nat n → 0 < n →
  ∃ r, swkbdInputText buf n i = Some r ∧ buffer n r ∧
       cstr r = take (Z.to_nat (n - 1)) (cstr (swkbd_text i)).
Proof.
  intros Hlen Hn. unfold swkbdInputText.
  set (text := take (Z.to_nat (n - 1)) (cstr (swkbd_text i))).
  assert (Hl : (length text ≤ Z.to_nat (n - 1))%nat).
  { subst text. rewrite length_take. lia. }
  rewrite decide_False by lia.
  rewrite memcpy_Some by (rewrite ?Nat2Z.id; lia). simpl.
  rewrite Nat2Z.id. rewrite firstn_all.
  rewrite poke_Some by (rewrite length_app, length_drop; lia).
  rewrite Nat2Z.id.
  assert (Hins : <[length text := NUL]> (text ++ drop (length text) buf)
                 = text ++ NUL :: drop (S (length text)) buf).
  { rewrite insert_app_cons_0 by (rewrite length_app, length_drop; lia).
    rewrite drop_drop. do 3 f_equal. lia. }
  rewrite Hins. eexists. split; [reflexivity|].
  assert (Hnt : NUL ∉ text) by apply take_cstr_no_nul.
  split; [split|].
  - rewrite length_app. simpl. rewrite length_drop. lia.
  - unfold terminated. apply elem_of_app. right. apply list_elem_of_here.
  - by apply cstr_app_nul.
Qed.

Lemma append_to_note_wf note new_content :
  wf_note note → buffer NOTE_CONTENT_LEN new_content →
  ∃ note', append_to_note (Ref note) (Ref new_content) = Some (Ref note') ∧
           wf_note note' ∧ title note' = title note.
Proof.
  intros [Ht [Hcl Hct]] Hnew.
  destruct (buffer_strlen _ _ (conj Hcl Hct)) as (L & HL & HLr & _).
  destruct (buffer_strlen _ _ Hnew) as (N & HN & HNr & _).
  destruct (append_to_note_cases note new_content L N Hcl HL HN)
    as (note' & Ha & Htitle & Hlen & Hok & Hno);
    [unfold NOTE_CONTENT_LEN in *; lia|].
  exists note'. split; [exact Ha|]. split; [|exact Htitle].
  split; [by rewrite Htitle|].
  destruct (Z.lt_ge_cases (L + N + 2) NOTE_CONTENT_LEN) as [Hlt|Hge].
  - destruct (Hok Hlt) as [Hterm _]. split; [congruence|exact Hterm].
  - rewrite (Hno Hge). by split.
Qed.

(** ** The card *)

Lemma find_entry_lt name d k f :
  find_entry name d = Some (k, f) → (k < length d)%nat.
Proof.
  unfold find_entry. intros Hf. apply list_find_Some in Hf as (Hk & _).
  by apply lookup_lt_Some in Hk.
Qed.

Lemma files_at_set_files p d fs : files_at p (set_files p d fs) = d.
Proof. by destruct p. Qed.

Lemma set_files_twice p d1 d2 fs :
  set_files p d2 (set_files p d1 fs) = set_files p d2 fs.
Proof. by destruct p. Qed.

Lemma fs_creat_set_files p d fs : fs_creat (set_files p d fs) = fs_creat fs.
Proof. by destruct p. Qed.

Lemma locate_Some fs path p name :
  locate fs path = Some (p, name) →
  is_Some (fs_dir fs) ∧
  fs_resolve fs (entry_name path)
  = match p with InDir => Here name | Outside => Elsewhere name end.
Proof.
  unfold locate. destruct (fs_dir fs); [|discriminate].
  cbn [mbind option_bind].
  destruct (fs_resolve fs (entry_name path)); intros [= <- <-] || discriminate;
    by split.
Qed.

Lemma locate_set_files fs path q d r :
  locate fs path = Some r → locate (set_files q d fs) path = Some r.
Proof.
  destruct r as [p name]. intros Hl.
  destruct (locate_Some _ _ _ _ Hl) as [[d0 Hd] _].
  revert Hl. unfold locate. rewrite Hd.
  destruct q; cbn [set_files set_dir set_out fs_dir fs_resolve mbind option_bind];
    [done | by rewrite Hd].
Qed.

Lemma fopen_wb_stream fs path slot fs' p k :
  fopen_wb fs path slot = Some (fs', (p, k)) →
  (k < length (files_at p fs'))%nat.
Proof.
  unfold fopen_wb. destruct (locate fs path) as [[q name]|]; [|discriminate].
  cbn [mbind option_bind].
  destruct (find_entry name (files_at q fs)) as [[j f]|] eqn:Hf.
  - destruct (f_access f); [|discriminate]. intros [= <- <- <-].
    rewrite files_at_set_files, length_insert.
    by eapply find_entry_lt.
  - destruct (fs_creat fs (entry_name path)); [|discriminate].
    intros [= <- <- <-]. rewrite files_at_set_files.
    unfold insert_at. rewrite length_app. simpl.
    rewrite length_take, length_drop. lia.
Qed.

Lemma save_note_defined title content slot fs :
  terminated title → terminated content →
  ∃ fs', save_note title content slot fs = Some fs'.
Proof.
  intros Ht Hc. unfold save_note, snprintf_path.
  rewrite (terminated_strlen _ Ht). simpl.
  destruct (fopen_wb _ _ _) as [[fs' [p k]]|] eqn:Ho; [|eauto].
  rewrite (terminated_strlen _ Hc). simpl.
  destruct (0 <? _); [|eauto].
  pose proof (fopen_wb_stream _ _ _ _ _ _ Ho) as Hk.
  unfold fwrite. pose proof (cstr_length_lt _ Hc).
  rewrite decide_True by lia.
  destruct (lookup_lt_is_Some_2 _ k Hk) as [f Hf]. rewrite Hf. simpl. eauto.
Qed.

(** ** Loading *)

Lemma int_Some z : INT_MIN <= z <= INT_MAX → int z = Some z.
Proof. intros. unfold int. by rewrite decide_True. Qed.

Lemma int_small z : -1000 <= z <= 1000 → int z = Some z.
Proof. intros. apply int_Some. unfold INT_MIN, INT_MAX. lia. Qed.

Lemma note_at_Some ns k :
  0 <= k < Z.of_nat (length ns) → ∃ note, note_at ns k = Some note ∧ ns !! Z.to_nat k = Some note.
Proof.
  intros Hk. unfold note_at. rewrite decide_True by lia.
  destruct (lookup_lt_is_Some_2 ns (Z.to_nat k)) as [note Hn]; [lia|].
  eauto.
Qed.

Lemma Forall_wf_insert ns k note :
  Forall wf_note ns → wf_note note → Forall wf_note (<[k := note]> ns).
Proof. intros. by apply Forall_insert. Qed.

Lemma terminated_app_nul t : terminated (t ++ [NUL]).
Proof. unfold terminated. apply elem_of_app. right. apply list_elem_of_here. Qed.

(** What the body of the [readdir] loop does with one entry: it leaves the
    store alone, or fills [notes[count]] from the file and counts it. *)
Lemma load_entry_cases fs entry ns count :
  length ns = Z.to_nat MAX_NOTES → Forall wf_note ns →
  0 <= count < MAX_NOTES →
  load_entry fs entry (ns, count) = Some (ns, count) ∧
    (f_type entry ≠ DT_REG ∨
     fopen_rb fs (filepath_of (f_name entry ++ [NUL])) = None)
  ∨ ∃ data old,
      f_type entry = DT_REG ∧
      fopen_rb fs (filepath_of (f_name entry ++ [NUL])) = Some data ∧
      ns !! Z.to_nat count = Some old ∧
      let t := take 31 (cstr (f_name entry ++ [NUL])) in
      let c := take 1023 data in
      let note := mkNote (t ++ NUL :: drop (S (length t)) (title old))
                         (c ++ NUL :: drop (S (length c)) (content old)) in
      wf_note note ∧
      load_entry fs entry (ns, count) = Some (<[Z.to_nat count := note]> ns, count + 1).
Proof.
  intros Hlen Hwf Hc. unfold load_entry, snprintf_path.
  destruct (f_type entry) eqn:Ety;
    try (left; split; [reflexivity | left; discriminate]).
  rewrite (terminated_strlen _ (terminated_app_nul _)). simpl.
  destruct (fopen_rb fs _) as [data|] eqn:Hopen;
    [|left; split; [reflexivity | by right]].
  right. unfold MAX_NOTES in *.
  destruct (note_at_Some ns count) as (old & Hat & Hold); [lia|].
  exists data, old. split; [reflexivity|]. split; [reflexivity|]. split; [exact Hold|].
  rewrite Hat. simpl.
  pose proof (Forall_lookup_1 _ _ _ _ Hwf Hold) as [[Htl Htt] [Hcl Hct]].
  unfold TITLE_LEN, NOTE_CONTENT_LEN in *.
  rewrite (safe_string_copy_spec (title old) (f_name entry ++ [NUL]) 32 _
             (terminated_strlen _ (terminated_app_nul _))) by lia.
  simpl. change (Z.to_nat (32 - 1)) with 31%nat.
  set (t := take 31 (cstr (f_name entry ++ [NUL]))).
  unfold fread. change (Z.to_nat (1024 - 1)) with 1023%nat.
  set (c := take 1023 data).
  assert (Hcl' : (length c ≤ 1023)%nat) by (subst c; rewrite length_take; lia).
  assert (Htl' : (length t ≤ 31)%nat) by (subst t; rewrite length_take; lia).
  rewrite memcpy_Some by (rewrite ?Nat2Z.id; lia). simpl.
  rewrite Nat2Z.id, firstn_all.
  rewrite poke_Some by (rewrite length_app, length_drop; lia). simpl.
  rewrite Nat2Z.id.
  rewrite insert_app_cons_0 by (rewrite length_app, length_drop; lia).
  rewrite drop_drop. replace (length c + 1)%nat with (S (length c)) by lia.
  rewrite int_small by lia. simpl.
  split; [|reflexivity].
  split; split; simpl; unfold TITLE_LEN, NOTE_CONTENT_LEN.
  - rewrite length_app. simpl. rewrite length_drop. lia.
  - unfold terminated. apply elem_of_app. right. apply list_elem_of_here.
  - rewrite length_app. simpl. rewrite length_drop. lia.
  - unfold terminated. apply elem_of_app. right. apply list_elem_of_here.
Qed.

Lemma count_reg_cons f d :
  count_reg (f :: d) = (if is_reg f then 1 else 0) + count_reg d.
Proof.
  unfold count_reg. rewrite filter_cons.
  destruct (is_reg f); simpl; lia.
Qed.

Lemma count_reg_nonneg d : 0 <= count_reg d.
Proof. unfold count_reg. lia. Qed.

(** The [readdir] loop: defined on a well-formed store, it never counts
    past [MAX_NOTES], counts at most the regular files it saw, and leaves
    the notes below the count it started from alone. *)
Lemma readdir_loop_inv fs entries : ∀ ns count,
  length ns = Z.to_nat MAX_NOTES → Forall wf_note ns →
  0 <= count <= MAX_NOTES →
  ∃ ns' count',
    readdir_loop fs entries (ns, count) = Some (ns', count') ∧
    length ns' = Z.to_nat MAX_NOTES ∧ Forall wf_note ns' ∧
    count <= count' <= MAX_NOTES ∧
    count' <= count + count_reg entries ∧
    ∀ j, (j < Z.to_nat count)%nat → ns' !! j = ns !! j.
Proof.
  induction entries as [|entry rest IH]; intros ns count Hlen Hwf Hc;
    cbn [readdir_loop snd].
  - exists ns, count. pose proof (count_reg_nonneg []). repeat split; auto; lia.
  - pose proof (count_reg_nonneg rest) as Hnn. rewrite count_reg_cons.
    destruct (Z.ltb_spec count MAX_NOTES) as [Hlt|Hge].
    2:{ exists ns, count. repeat split; auto; try lia. destruct (is_reg entry); lia. }
    destruct (load_entry_cases fs entry ns count Hlen Hwf) as
      [[Hsame _]|(data & old & Hty & _ & Hold & Hnote & Hload)]; [lia| |].
    + rewrite Hsame. cbn [mbind option_bind].
      destruct (IH ns count Hlen Hwf Hc) as (ns' & count' & Hr & ? & ? & ? & ? & ?).
      exists ns', count'. repeat split; auto; try lia. destruct (is_reg entry); lia.
    + cbv zeta in Hnote, Hload. rewrite Hload. cbn [mbind option_bind].
      match type of Hload with _ = Some (<[_ := ?n]> _, _) => set (note := n) in * end.
      destruct (IH (<[Z.to_nat count := note]> ns) (count + 1))
        as (ns' & count' & Hr & ? & ? & ? & ? & Hkeep).
      { by rewrite length_insert. }
      { by apply Forall_wf_insert. }
      { lia. }
      exists ns', count'. unfold is_reg. rewrite Hty.
      repeat split; auto; try lia.
      intros j Hj. rewrite Hkeep by lia. apply list_lookup_insert_ne. lia.
Qed.

Ltac simpl_state :=
  cbn [notes note_count selectedMenu selectedNote mode currentNoteContent
       currentNoteTitle sdmc set_notes set_note_count set_selectedMenu
       set_selectedNote set_mode set_currentNoteContent set_currentNoteTitle
       set_sdmc boot mbind option_bind deref] in *.

Lemma buffer_zeroed n : 0 < n → buffer n (zeroed n).
Proof.
  intros Hn. unfold buffer, zeroed, terminated. split.
  - apply length_replicate.
  - apply elem_of_replicate. split; [reflexivity|lia].
Qed.

Lemma wf_empty_note : wf_note empty_note.
Proof. split; apply buffer_zeroed; reflexivity. Qed.

Lemma boot_mem_ok fs : mem_ok (boot fs).
Proof.
  unfold mem_ok, boot. cbn [notes currentNoteContent currentNoteTitle].
  split; [apply length_replicate|].
  split; [apply Forall_replicate, wf_empty_note|].
  split; apply buffer_zeroed; reflexivity.
Qed.

(** Start-up: [load_notes] is defined on every card and leaves the menu
    with no selection. *)
Lemma load_notes_boot fs :
  ∃ s, load_notes (boot fs) = Some s ∧ wf_state s ∧
       mode s = MODE_MENU ∧ selectedNote s = -1 ∧
       note_count s <= match fs_dir (ensure_notes_directory fs) with
                       | Some d => count_reg d
                       | None => 0
                       end.
Proof.
  unfold load_notes, opendir. cbn [sdmc set_sdmc set_note_count boot notes note_count].
  destruct (boot_mem_ok fs) as (Hlen & Hwf & Hc & Ht).
  cbn [notes currentNoteContent currentNoteTitle boot] in Hlen, Hwf, Hc, Ht.
  destruct (fs_dir (ensure_notes_directory fs)) as [d|] eqn:Hd.
  - destruct (readdir_loop_inv (ensure_notes_directory fs) d
                (replicate (Z.to_nat MAX_NOTES) empty_note) 0)
      as (ns & count & Hr & Hl' & Hwf' & Hcount & Hcr & _);
      [apply length_replicate | apply Forall_replicate, wf_empty_note
       | unfold MAX_NOTES; lia |].
    rewrite Hr. simpl_state. eexists. split; [reflexivity|].
    unfold wf_state, mem_ok, sel_in_range. simpl_state.
    split_and!; auto; lia.
  - eexists. split; [reflexivity|].
    unfold wf_state, mem_ok, sel_in_range. simpl_state.
    split_and!; auto; unfold MAX_NOTES; lia.
Qed.

(** ** The key handlers *)

Lemma int_mod_pos a b :
  0 <= a <= INT_MAX → 0 < b → int_mod a b = Some (a mod b).
Proof.
  intros Ha Hb. unfold int_mod. rewrite decide_False by lia.
  rewrite Z.quot_div_nonneg by lia.
  assert (0 <= a / b <= a) as Hq.
  { split; [apply Z.div_pos; lia|]. apply Z.div_le_upper_bound; nia. }
  rewrite (int_Some (a / b)) by (unfold INT_MIN, INT_MAX in *; lia).
  cbn [mbind option_bind].
  rewrite Z.rem_mod_nonneg by lia.
  pose proof (Z.mod_pos_bound a b). pose proof (Z.mod_le a b).
  apply int_Some. unfold INT_MIN, INT_MAX in *. lia.
Qed.

Lemma menu_key_up_effect s :
  selectedMenu s = 0 ∨ selectedMenu s = 1 →
  menu_key_up s = Some (set_selectedMenu (1 - selectedMenu s) s).
Proof. unfold menu_key_up. intros [-> | ->]; reflexivity. Qed.

Lemma menu_key_down_effect s :
  selectedMenu s = 0 ∨ selectedMenu s = 1 →
  menu_key_down s = Some (set_selectedMenu (1 - selectedMenu s) s).
Proof. unfold menu_key_down. intros [-> | ->]; reflexivity. Qed.

Lemma list_key_up_effect s :
  sel_in_range s → note_count s <= 2 ^ 30 →
  list_key_up s =
    Some (set_selectedNote
            ((selectedNote s - 1 + note_count s) mod note_count s) s).
Proof.
  unfold sel_in_range, list_key_up. intros Hs Hc.
  rewrite int_Some by (unfold INT_MIN, INT_MAX; lia). cbn [mbind option_bind].
  rewrite int_Some by (unfold INT_MIN, INT_MAX; lia). cbn [mbind option_bind].
  rewrite int_mod_pos by (unfold INT_MAX; lia). reflexivity.
Qed.

Lemma list_key_down_effect s :
  sel_in_range s → note_count s <= 2 ^ 30 →
  list_key_down s =
    Some (set_selectedNote ((selectedNote s + 1) mod note_count s) s).
Proof.
  unfold sel_in_range, list_key_down. intros Hs Hc.
  rewrite int_Some by (unfold INT_MIN, INT_MAX; lia). cbn [mbind option_bind].
  rewrite int_mod_pos by (unfold INT_MAX; lia). reflexivity.
Qed.

(** The two outcomes of the "New Note" entry: a note is created at index
    [note_count], selected and shown; or nothing but the two scratch
    buffers changes. *)
Lemma new_note_effect i s :
  mem_ok s → 0 <= note_count s <= MAX_NOTES →
  ∃ s', new_note i s = Some s' ∧ mem_ok s' ∧
        selectedMenu s' = selectedMenu s ∧
        ((note_count s < MAX_NOTES ∧
          swkbd_button i = SWKBD_BUTTON_RIGHT ∧
          note_count s' = note_count s + 1 ∧
          selectedNote s' = note_count s ∧
          mode s' = MODE_VIEW_NOTE ∧
          ∀ j, j ≠ Z.to_nat (note_count s) → notes s' !! j = notes s !! j)
         ∨
         (notes s' = notes s ∧ note_count s' = note_count s ∧
          selectedNote s' = selectedNote s ∧ mode s' = mode s ∧
          sdmc s' = sdmc s)).
Proof.
  intros (Hlen & Hwf & Hcb & Htb) Hc. unfold new_note. simpl_state.
  destruct (swkbdInputText_buffer TITLE_LEN (zeroed TITLE_LEN) i)
    as (buf & Hbuf & Hbw & _); [apply length_replicate | reflexivity |].
  rewrite Hbuf. simpl_state.
  assert (Hmem : mem_ok (set_currentNoteTitle buf
                   (set_currentNoteTitle (zeroed TITLE_LEN)
                      (set_currentNoteContent (zeroed NOTE_CONTENT_LEN) s)))).
  { split; [exact Hlen|]. split; [exact Hwf|]. split; [|exact Hbw].
    apply buffer_zeroed. reflexivity. }
  destruct (decide (swkbd_button i = SWKBD_BUTTON_RIGHT)) as [Hb|Hb].
  2:{ eexists. split; [reflexivity|]. split; [exact Hmem|]. split; [reflexivity|].
      right. repeat split. }
  destruct (buffer_strlen _ _ Hbw) as (tl & Htl & _ & _).
  rewrite Htl. simpl_state.
  destruct ((0 <? tl) && (note_count s <? MAX_NOTES)) eqn:Hcond.
  2:{ eexists. split; [reflexivity|]. split; [exact Hmem|]. split; [reflexivity|].
      right. repeat split. }
  apply andb_true_iff in Hcond as [_ Hroom]. apply Z.ltb_lt in Hroom.
  destruct (note_at_Some (notes s) (note_count s)) as (old & Hat & Hold);
    [unfold MAX_NOTES in *; lia|].
  rewrite Hat. simpl_state.
  pose proof (Forall_lookup_1 _ _ _ _ Hwf Hold) as [Hot [Hocl Hoct]].
  destruct (safe_string_copy_buffer TITLE_LEN (title old) buf Hot (proj2 Hbw))
    as (t & Ht & Htw & _); [unfold TITLE_LEN; lia|].
  rewrite Ht. simpl_state.
  rewrite poke_Some by (rewrite Hocl; unfold NOTE_CONTENT_LEN; lia).
  simpl_state. change (Z.to_nat 0) with 0%nat.
  destruct (save_note_defined buf [NUL] (creat_slot i) (sdmc s) (proj2 Hbw))
    as [fs' Hsave]; [apply (terminated_app_nul [])|].
  rewrite Hsave. simpl_state.
  rewrite int_small by (unfold MAX_NOTES in *; lia). simpl_state.
  eexists. split; [reflexivity|].
  assert (Hnew : wf_note (mkNote t (<[0%nat := NUL]> (content old)))).
  { split; [exact Htw|]. split; cbn [content].
    - by rewrite length_insert.
    - unfold terminated. destruct (content old); [discriminate Hocl|].
      simpl. apply list_elem_of_here. }
  split; [|split; [reflexivity|]].
  - split; simpl_state; [by rewrite length_insert|].
    split; [by apply Forall_wf_insert|].
    split; [apply buffer_zeroed; reflexivity | exact Hbw].
  - left. simpl_state. split_and!; auto.
    intros j Hj. by apply list_lookup_insert_ne.
Qed.

(** The "Add Line" entry: it is defined whenever a note is selected, and
    replaces that note by one with the same title. *)
Lemma add_line_effect i s :
  mem_ok s → sel_in_range s → note_count s <= MAX_NOTES →
  ∃ s' note note',
    add_line i s = Some s' ∧ mem_ok s' ∧
    notes s !! Z.to_nat (selectedNote s) = Some note ∧
    notes s' = <[Z.to_nat (selectedNote s) := note']> (notes s) ∧
    wf_note note ∧
    buffer NOTE_CONTENT_LEN (currentNoteContent s') ∧
    (if decide (swkbd_button i = SWKBD_BUTTON_RIGHT)
     then append_to_note (Ref note) (Ref (currentNoteContent s'))
          = Some (Ref note')
     else note' = note) ∧
    title note' = title note ∧
    note_count s' = note_count s ∧ selectedNote s' = selectedNote s ∧
    selectedMenu s' = selectedMenu s ∧ mode s' = mode s.
Proof.
  intros (Hlen & Hwf & Hcb & Htb) Hsel Hc. unfold add_line, sel_in_range in *.
  destruct (swkbdInputText_buffer NOTE_CONTENT_LEN (currentNoteContent s) i)
    as (buf & Hbuf & Hbw & _); [apply Hcb | reflexivity |].
  rewrite Hbuf. simpl_state.
  destruct (note_at_Some (notes s) (selectedNote s)) as (note & Hat & Hnote);
    [unfold MAX_NOTES in *; lia|].
  pose proof (Forall_lookup_1 _ _ _ _ Hwf Hnote) as Hwn.
  destruct (decide (swkbd_button i = SWKBD_BUTTON_RIGHT)) as [Hb|Hb].
  2:{ exists (set_currentNoteContent buf s), note, note.
      split; [reflexivity|]. simpl_state.
      split; [by split_and!|].
      split; [exact Hnote|]. split; [by rewrite list_insert_id|].
      split_and!; auto; lia. }
  rewrite Hat. simpl_state.
  destruct (append_to_note_wf note buf Hwn Hbw) as (note' & Happ & Hwn' & Htitle).
  rewrite Happ. simpl_state.
  assert (Hat' : note_at (<[Z.to_nat (selectedNote s) := note']> (notes s))
                   (selectedNote s) = Some note').
  { unfold note_at. rewrite decide_True by lia.
    apply list_lookup_insert_eq. unfold MAX_NOTES in *. lia. }
  rewrite Hat'. simpl_state.
  destruct (save_note_defined (title note') (content note') (creat_slot i) (sdmc s))
    as [fs' Hsave]; [apply Hwn' | apply Hwn' |].
  rewrite Hsave. simpl_state.
  eexists _, note, note'. split; [reflexivity|]. simpl_state.
  split.
  { split; simpl_state; [by rewrite length_insert|].
    split; [by apply Forall_wf_insert|]. by split. }
  split_and!; auto; lia.
Qed.

Lemma on_step (P Q : State → Prop) cond body s :
  P s →
  (P s → ∃ s', body s = Some s' ∧ Q s') →
  (P s → Q s) →
  ∃ s', on cond body s = Some s' ∧ Q s'.
Proof.
  intros HP Hbody Hskip. unfold on. destruct cond; eauto.
Qed.

(** ** The invariant of the loop *)

Ltac close_wf :=
  unfold wf_state, sel_in_range, mem_ok in *; simpl_state;
  destruct_and?; split_and?;
  first [assumption | reflexivity | lia | auto].

Section Invariant.
Context `{HidKeys}.

(** One pass of the loop from a well-formed state is defined and ends in
    a well-formed state. *)
Lemma frame_wf i s :
  wf_state s → ∃ s', frame i s = Some s' ∧ wf_state s'.
Proof.
  intros (Hmem & Hc & Hmenu & Hsel & Hmode). unfold frame.
  destruct (mode s) eqn:Em; [| | |contradiction].
  - (* menu *)
    unfold menu_input.
    pose (P := λ s', mem_ok s' ∧ 0 <= note_count s' <= MAX_NOTES ∧
                     (selectedMenu s' = 0 ∨ selectedMenu s' = 1) ∧
                     (selectedNote s' = -1 ∨ sel_in_range s') ∧
                     mode s' = MODE_MENU).
    assert (HP : P s) by (unfold P; split_and!; auto; lia).
    destruct (on_step P P (pressed i KEY_UP) menu_key_up s HP)
      as (s1 & -> & HP1); [|auto|].
    { intros (? & ? & Hm & ? & ?). rewrite menu_key_up_effect by auto.
      eexists. split; [reflexivity|]. unfold P in *. close_wf. }
    simpl_state.
    destruct (on_step P P (pressed i KEY_DOWN) menu_key_down s1 HP1)
      as (s2 & -> & HP2); [|auto|].
    { intros (? & ? & Hm & ? & ?). rewrite menu_key_down_effect by auto.
      eexists. split; [reflexivity|]. unfold P in *. close_wf. }
    simpl_state.
    apply (on_step P wf_state); [exact HP2| |].
    2:{ intros (? & ? & ? & ? & Hm). unfold wf_state. rewrite Hm. split_and!; auto; lia. }
    intros (Hmem2 & Hc2 & Hmenu2 & Hsel2 & Hmode2). unfold menu_key_a.
    destruct (selectedMenu s2 =? 0).
    + destruct (new_note_effect i s2 Hmem2 Hc2)
        as (s' & Hn & Hmem' & Hmenu' & [Hcreated|Hrejected]).
      * destruct Hcreated as (Hroom & _ & Hcount & Hs & Hm & _).
        exists s'. split; [exact Hn|]. unfold wf_state, sel_in_range.
        rewrite Hm, Hcount, Hs, Hmenu'. split_and!; auto; lia.
      * destruct Hrejected as (_ & Hcount & Hs & Hm & _).
        exists s'. split; [exact Hn|]. unfold wf_state, sel_in_range in *.
        rewrite Hm, Hcount, Hs, Hmenu', Hmode2. split_and!; auto; lia.
    + unfold view_notes. destruct (Z.ltb_spec 0 (note_count s2)).
      * eexists. split; [reflexivity|]. close_wf.
      * eexists. split; [reflexivity|].
        unfold wf_state. rewrite Hmode2. split_and!; auto; lia.
  - (* note list *)
    unfold note_list_input.
    pose (P := λ s', mem_ok s' ∧ 0 <= note_count s' <= MAX_NOTES ∧
                     (selectedMenu s' = 0 ∨ selectedMenu s' = 1) ∧
                     sel_in_range s' ∧
                     (mode s' = MODE_MENU ∨ mode s' = MODE_NOTE_LIST)).
    assert (HP : P s) by (unfold P; split_and!; auto; lia).
    destruct (on_step P P (pressed i KEY_B) list_key_b s HP)
      as (s1 & -> & HP1); [|auto|].
    { intros (? & ? & ? & ? & ?). eexists. split; [reflexivity|].
      unfold P in *. close_wf. }
    simpl_state.
    destruct (on_step P P (pressed i KEY_UP) list_key_up s1 HP1)
      as (s2 & -> & HP2); [|auto|].
    { intros (? & ? & ? & Hs & ?). rewrite list_key_up_effect by (auto; unfold MAX_NOTES in *; lia).
      eexists. split; [reflexivity|].
      pose proof (Z.mod_pos_bound (selectedNote s1 - 1 + note_count s1) (note_count s1)).
      unfold P in *. close_wf. }
    simpl_state.
    destruct (on_step P P (pressed i KEY_DOWN) list_key_down s2 HP2)
      as (s3 & -> & HP3); [|auto|].
    { intros (? & ? & ? & Hs & ?). rewrite list_key_down_effect by (auto; unfold MAX_NOTES in *; lia).
      eexists. split; [reflexivity|].
      pose proof (Z.mod_pos_bound (selectedNote s2 + 1) (note_count s2)).
      unfold P in *. close_wf. }
    simpl_state.
    apply (on_step P wf_state); [exact HP3| |].
    + intros (? & ? & ? & ? & ?). eexists. split; [reflexivity|].
      close_wf.
    + intros (? & ? & ? & ? & [Hm|Hm]); unfold wf_state; rewrite Hm;
        split_and!; auto; lia.
  - (* note view *)
    unfold view_note_input.
    pose (P := λ s', mem_ok s' ∧ 0 <= note_count s' <= MAX_NOTES ∧
                     (selectedMenu s' = 0 ∨ selectedMenu s' = 1) ∧
                     sel_in_range s' ∧
                     (mode s' = MODE_NOTE_LIST ∨ mode s' = MODE_VIEW_NOTE)).
    assert (HP : P s) by (unfold P; split_and!; auto; lia).
    destruct (on_step P P (pressed i KEY_B) view_key_b s HP)
      as (s1 & -> & HP1); [|auto|].
    { intros (? & ? & ? & Hs & ?). unfold view_key_b. simpl_state.
      unfold sel_in_range in Hs.
      destruct (Z.leb_spec (note_count s) (selectedNote s)); [lia|].
      eexists. split; [reflexivity|].
      unfold P in *. close_wf. }
    simpl_state.
    apply (on_step P wf_state); [exact HP1| |].
    + intros (Hm1 & Hc1 & Hmenu1 & Hs1 & Hmode1).
      destruct (add_line_effect i s1 Hm1 Hs1 (proj2 Hc1))
        as (s' & note & note' & Ha & Hmem' & _ & _ & _ & _ & _ & _ & Hcount & Hs' & Hmenu' & Hmode').
      exists s'. split; [exact Ha|]. unfold wf_state, sel_in_range in *.
      rewrite Hcount, Hs', Hmenu', Hmode'.
      destruct Hmode1 as [-> | ->]; split_and!; auto; lia.
    + intros (? & ? & ? & ? & [Hm|Hm]); unfold wf_state; rewrite Hm;
        split_and!; auto; lia.
Qed.

Lemma reachable_wf s : reachable s → wf_state s.
Proof.
  induction 1 as [fs s Hload | i s s' _ IH _ Hframe].
  - destruct (load_notes_boot fs) as (s0 & Hs0 & Hwf & _). congruence.
  - destruct (frame_wf i s IH) as (s'' & Hs'' & Hwf). congruence.
Qed.

(** No pass from a reachable state meets undefined behaviour. *)
Lemma reachable_progress i s : reachable s → ∃ s', frame i s = Some s'.
Proof.
  intros Hr. destruct (frame_wf i s (reachable_wf s Hr)) as (s' & Hf & _).
  eauto.
Qed.

End Invariant.

(** ** The navigation state machine *)

Section Claims.
Context `{HidKeys}.

Lemma main_loop_reachable ins : ∀ s s',
  reachable s → main_loop ins s = Some s' → reachable s'.
Proof.
  induction ins as [|i ins IH]; intros s s' Hr; cbn [main_loop].
  - by intros [= <-].
  - destruct (quits i s) eqn:Hq; [by intros [= <-]|].
    destruct (frame i s) as [s1|] eqn:Hf; [|discriminate].
    cbn [mbind option_bind]. apply IH. by eapply reach_frame.
Qed.

Lemma main_reachable fs ins s : main fs ins = Some s → reachable s.
Proof.
  unfold main. destruct (load_notes (boot fs)) as [s0|] eqn:Hl; [|discriminate].
  cbn [mbind option_bind]. apply main_loop_reachable. by eapply reach_load.
Qed.

(** C6: in every reachable state the selection is -1 or an index below
    the count. *)
Theorem selection_valid s :
  reachable s →
  selectedNote s = -1 ∨ 0 <= selectedNote s < note_count s.
Proof. intros Hr. apply reachable_wf in Hr. apply Hr. Qed.

(** C9: no reachable state is in the mode [MODE_EDIT_NOTE]. *)
Theorem edit_note_unreachable s :
  reachable s → mode s ≠ MODE_EDIT_NOTE.
Proof.
  intros Hr Hm. apply reachable_wf in Hr. destruct Hr as (_ & _ & _ & _ & Hmode).
  by rewrite Hm in Hmode.
Qed.

(** C7: whenever the note-list keys are handled the count is positive,
    and the pass (with its two remainders by the count) is defined. *)
Theorem list_navigation_defined s :
  reachable s → mode s = MODE_NOTE_LIST →
  0 < note_count s ∧
  ∀ i, ∃ s', note_list_input i s = Some s' ∧ frame i s = Some s'.
Proof.
  intros Hr Hm. apply reachable_wf in Hr. split.
  - destruct Hr as (_ & _ & _ & _ & Hmode). rewrite Hm in Hmode.
    unfold sel_in_range in Hmode. lia.
  - intros i. destruct (frame_wf i s Hr) as (s' & Hf & _).
    exists s'. split; [|exact Hf]. unfold frame in Hf. by rewrite Hm in Hf.
Qed.

(** C5: the count stays within [0, MAX_NOTES]: after start-up on any
    card, and after every pass of the loop; and with [MAX_NOTES] notes in
    the store the "New Note" entry creates nothing. *)
Theorem count_within_capacity :
  (∀ fs, ∃ s, load_notes (boot fs) = Some s ∧
              0 <= note_count s <= MAX_NOTES) ∧
  (∀ i s, reachable s →
     0 <= note_count s <= MAX_NOTES ∧
     ∃ s', frame i s = Some s' ∧ 0 <= note_count s' <= MAX_NOTES) ∧
  (∀ i s, reachable s → note_count s = MAX_NOTES →
     ∃ s', new_note i s = Some s' ∧ note_count s' = MAX_NOTES ∧
           notes s' = notes s ∧ selectedNote s' = selectedNote s ∧
           mode s' = mode s ∧ sdmc s' = sdmc s).
Proof.
  split; [|split].
  - intros fs. destruct (load_notes_boot fs) as (s & Hs & Hwf & _).
    exists s. split; [exact Hs | apply Hwf].
  - intros i s Hr. apply reachable_wf in Hr. split; [apply Hr|].
    destruct (frame_wf i s Hr) as (s' & Hf & Hwf').
    exists s'. split; [exact Hf | apply Hwf'].
  - intros i s Hr Hfull. apply reachable_wf in Hr.
    destruct Hr as (Hmem & Hc & _).
    destruct (new_note_effect i s Hmem Hc)
      as (s' & Hn & _ & _ & [(Hroom & _)|(Hns & Hcount & Hsel & Hm & Hfs)]);
      [lia|].
    exists s'. rewrite Hcount. by split_and!.
Qed.

(** C8: in the note list, with a positive count (small enough for the sum
    [selectedNote - 1 + note_count] to be an [int]) and a selection below
    it, UP alone moves the selection to [(i - 1 + count) mod count] and
    DOWN alone to [(i + 1) mod count]; with three notes, UP from 0 gives 2
    and DOWN from 2 gives 0. *)
Theorem list_navigation_wraps i s :
  mode s = MODE_NOTE_LIST →
  0 < note_count s <= 2 ^ 30 →
  0 <= selectedNote s < note_count s →
  (pressed i KEY_UP = true → pressed i KEY_DOWN = false →
     ∃ s', frame i s = Some s' ∧ note_count s' = note_count s ∧
           selectedNote s' =
             (selectedNote s - 1 + note_count s) mod note_count s ∧
           (note_count s = 3 → selectedNote s = 0 → selectedNote s' = 2)) ∧
  (pressed i KEY_DOWN = true → pressed i KEY_UP = false →
     ∃ s', frame i s = Some s' ∧ note_count s' = note_count s ∧
           selectedNote s' = (selectedNote s + 1) mod note_count s ∧
           (note_count s = 3 → selectedNote s = 2 → selectedNote s' = 0)).
Proof.
  intros Hm Hc Hs. unfold frame, note_list_input. rewrite Hm.
  assert (Hb : ∀ b, on b list_key_b s = Some (if b then set_mode MODE_MENU s else s))
    by (by intros []).
  rewrite Hb. cbn [mbind option_bind].
  set (s0 := if pressed i KEY_B then set_mode MODE_MENU s else s).
  assert (Hs0 : note_count s0 = note_count s ∧ selectedNote s0 = selectedNote s)
    by (subst s0; destruct (pressed i KEY_B); by split).
  destruct Hs0 as [Hc0 Hsel0].
  split; intros -> ->; cbn [on mbind option_bind].
  - rewrite list_key_up_effect by (unfold sel_in_range; lia).
    cbn [mbind option_bind]. rewrite Hc0, Hsel0.
    destruct (_ && _); cbn [list_key_a]; eexists;
      (split; [reflexivity|]); simpl_state;
      (split; [exact Hc0|]); (split; [reflexivity|]);
      intros -> ->; reflexivity.
  - rewrite list_key_down_effect by (unfold sel_in_range; lia).
    cbn [mbind option_bind]. rewrite Hc0, Hsel0.
    destruct (_ && _); cbn [list_key_a]; eexists;
      (split; [reflexivity|]); simpl_state;
      (split; [exact Hc0|]); (split; [reflexivity|]);
      intros -> ->; reflexivity.
Qed.

(** C10: an accepted "Add Line" replaces the selected note by one with
    the same title and touches nothing else of the store, the count, the
    two selections or the mode; when the line does not fit, the store is
    left as it was. *)
Theorem add_line_frame i s :
  reachable s → mode s = MODE_VIEW_NOTE →
  pressed i KEY_A = true → pressed i KEY_B = false →
  swkbd_button i = SWKBD_BUTTON_RIGHT →
  ∃ s' note note',
    frame i s = Some s' ∧
    notes s !! Z.to_nat (selectedNote s) = Some note ∧
    notes s' = <[Z.to_nat (selectedNote s) := note']> (notes s) ∧
    title note' = title note ∧
    (∀ j, j ≠ Z.to_nat (selectedNote s) → notes s' !! j = notes s !! j) ∧
    note_count s' = note_count s ∧
    selectedNote s' = selectedNote s ∧
    selectedMenu s' = selectedMenu s ∧
    mode s' = mode s ∧
    (∀ L N, strlen (content note) = Some L →
            strlen (currentNoteContent s') = Some N →
            NOTE_CONTENT_LEN <= L + N + 2 → notes s' = notes s).
Proof.
  intros Hr Hm Ha Hb Hbutton. apply reachable_wf in Hr.
  destruct Hr as (Hmem & Hc & _ & _ & Hmode). rewrite Hm in Hmode.
  unfold frame, view_note_input. rewrite Hm, Ha, Hb. cbn [on mbind option_bind].
  destruct (add_line_effect i s Hmem Hmode (proj2 Hc))
    as (s' & note & note' & Hadd & _ & Hnote & Hns & Hwn & Hbuf & Happ & Ht & Hrest).
  exists s', note, note'. split; [exact Hadd|]. split; [exact Hnote|].
  split; [exact Hns|]. split; [exact Ht|].
  split; [intros j Hj; rewrite Hns; by apply list_lookup_insert_ne|].
  destruct Hrest as (-> & -> & -> & ->). do 4 (split; [first [reflexivity | exact Hm]|]).
  intros L N HL HN Hfull. rewrite decide_True in Happ by exact Hbutton.
  destruct (append_to_note_cases note (currentNoteContent s') L N)
    as (n2 & Hn2 & _ & _ & _ & Hno); [apply Hwn | exact HL | exact HN | |].
  { destruct (buffer_strlen _ _ (proj2 Hwn)) as (L' & HL' & ? & _).
    destruct (buffer_strlen _ _ Hbuf) as (N' & HN' & ? & _).
    unfold NOTE_CONTENT_LEN in *.
    assert (L = L') by congruence. assert (N = N') by congruence. lia. }
  rewrite Hns. assert (note' = note) as -> by (rewrite <- (Hno Hfull); congruence).
  by apply list_insert_id.
Qed.

(** In the note view the test [selectedNote >= note_count] of the B key
    never holds: B leads to the note list from every reachable state. *)
Lemma view_back_to_list i s :
  reachable s → mode s = MODE_VIEW_NOTE → pressed i KEY_B = true →
  ∃ s', frame i s = Some s' ∧ mode s' = MODE_NOTE_LIST.
Proof.
  intros Hr Hm Hb. apply reachable_wf in Hr.
  destruct Hr as (Hmem & Hc & _ & _ & Hmode). rewrite Hm in Hmode.
  unfold frame, view_note_input. rewrite Hm, Hb. cbn [on].
  unfold view_key_b. simpl_state. unfold sel_in_range in Hmode.
  destruct (Z.leb_spec (note_count s) (selectedNote s)); [lia|].
  cbn [mbind option_bind]. unfold on. destruct (pressed i KEY_A).
  - destruct (add_line_effect i (set_mode MODE_NOTE_LIST s))
      as (s' & ? & ? & Hadd & _ & _ & _ & _ & _ & _ & _ & _ & _ & _ & Hmode');
      [exact Hmem | exact Hmode | apply Hc |].
    exists s'. split; [exact Hadd | exact Hmode'].
  - eexists. split; reflexivity.
Qed.

End Claims.

(** ** Saving, then loading *)

Lemma count_reg_app l1 l2 :
  count_reg (l1 ++ l2) = count_reg l1 + count_reg l2.
Proof. unfold count_reg. rewrite list.filter_app, length_app. lia. Qed.

Lemma count_reg_take k d : count_reg (take k d) <= count_reg d.
Proof.
  rewrite <- (take_drop k d) at 2. rewrite count_reg_app.
  pose proof (count_reg_nonneg (drop k d)). lia.
Qed.

Lemma readdir_loop_full fs entries ns count :
  MAX_NOTES <= count → readdir_loop fs entries (ns, count) = Some (ns, count).
Proof.
  intros Hc. destruct entries as [|e rest]; [reflexivity|].
  cbn [readdir_loop snd]. destruct (Z.ltb_spec count MAX_NOTES); [lia|reflexivity].
Qed.

(** The loop over a concatenated listing is the loop over its first part
    followed by the loop over the rest. *)
Lemma readdir_loop_app fs l1 l2 : ∀ st,
  readdir_loop fs (l1 ++ l2) st = readdir_loop fs l1 st ≫= readdir_loop fs l2.
Proof.
  induction l1 as [|e l1 IH]; intros [ns count]; [reflexivity|].
  cbn [app readdir_loop snd].
  destruct (Z.ltb_spec count MAX_NOTES) as [Hlt|Hge].
  - destruct (load_entry fs e (ns, count)) as [st'|]; [|reflexivity].
    cbn [mbind option_bind]. apply IH.
  - cbn [mbind option_bind]. by rewrite readdir_loop_full.
Qed.

Lemma find_entry_fresh name l1 f l2 :
  Forall (λ g, f_name g ≠ name) l1 →
  f_name f = name →
  find_entry name (l1 ++ f :: l2) = Some (length l1, f).
Proof.
  intros Hl1 Hf. unfold find_entry. apply list_find_Some. split_and!.
  - by apply list_lookup_middle.
  - exact Hf.
  - intros j g Hj Hlt. rewrite lookup_app_l in Hj by lia.
    by apply (Forall_lookup_1 _ _ _ _ Hl1 Hj).
Qed.

Lemma filepath_of_short name :
  NUL ∉ name → (length name ≤ 31)%nat →
  filepath_of (name ++ [NUL]) = NOTES_DIR ++ name ∧
  entry_name (filepath_of (name ++ [NUL])) = name.
Proof.
  intros Hn Hl. unfold filepath_of, entry_name.
  rewrite cstr_app_nul by auto.
  rewrite take_ge by (rewrite length_app; simpl; lia).
  split; [reflexivity|]. by rewrite drop_app_length.
Qed.

Lemma ensure_notes_directory_creat fs :
  fs_creat (ensure_notes_directory fs) = fs_creat fs ∧
  fs_mkdir (ensure_notes_directory fs) = fs_mkdir fs.
Proof.
  unfold ensure_notes_directory, opendir, mkdir.
  destruct (fs_dir fs); [by split|]. destruct (fs_mkdir fs) eqn:E; by split.
Qed.

Lemma ensure_notes_directory_resolve fs :
  fs_resolve (ensure_notes_directory fs) = fs_resolve fs ∧
  fs_out (ensure_notes_directory fs) = fs_out fs.
Proof.
  unfold ensure_notes_directory, opendir, mkdir.
  destruct (fs_dir fs); [by split|]. destruct (fs_mkdir fs) eqn:E; by split.
Qed.

(** A path that resolves to an entry of the directory, when there is
    one. *)
Lemma locate_here fs path name d :
  fs_dir fs = Some d → fs_resolve fs (entry_name path) = Here name →
  locate fs path = Some (InDir, name) ∧ files_at InDir fs = d.
Proof.
  intros Hd Hr. unfold locate, files_at. by rewrite Hd, Hr.
Qed.

Lemma components_plain name : SLASH ∉ name → components name = [name].
Proof.
  induction name as [|b name IH]; intros Hn; [reflexivity|].
  cbn [components]. destruct (Byte.eqb b SLASH) eqn:E.
  - apply Byte.byte_dec_bl in E. subst b. destruct Hn. apply list_elem_of_here.
  - rewrite IH; [reflexivity|]. intros Hin. apply Hn. by apply list_elem_of_further.
Qed.

(** On the sample cards a plain file name designates the entry of that
    name. *)
Lemma card_resolve_plain name : plain name → card_resolve name = Here name.
Proof.
  intros (Hne & Hs & Hdot & Hdots). unfold card_resolve.
  rewrite components_plain by exact Hs. cbn [walk].
  rewrite bool_decide_eq_false_2 by (intros [?|?]; contradiction).
  by rewrite bool_decide_eq_false_2.
Qed.

(** Saving under a name no entry has creates one regular file holding the
    text, at a position of the card's choosing. *)
Lemma save_note_new fs slot name text d :
  NUL ∉ name → NUL ∉ text → (length name ≤ 31)%nat →
  fs_resolve fs name = Here name →
  fs_dir (ensure_notes_directory fs) = Some d →
  Forall (λ f, f_name f ≠ name) d →
  fs_creat fs name = true →
  save_note (name ++ [NUL]) (text ++ [NUL]) slot fs =
    Some (set_dir (insert_at (slot `min` length d)
                     (mkFile name DT_REG text true) d)
            (ensure_notes_directory fs)).
Proof.
  intros Hn Ht Hl Hres Hd Hfresh Hcreat. unfold save_note, snprintf_path.
  rewrite (terminated_strlen _ (terminated_app_nul name)).
  cbn [mbind option_bind].
  destruct (filepath_of_short name Hn Hl) as [_ He].
  unfold fopen_wb.
  destruct (locate_here (ensure_notes_directory fs)
              (filepath_of (name ++ [NUL])) name d Hd) as [Hloc Hat].
  { by rewrite He, (proj1 (ensure_notes_directory_resolve fs)). }
  rewrite Hloc. cbn [mbind option_bind]. rewrite Hat.
  assert (Hnone : find_entry name d = None).
  { unfold find_entry. by apply list_find_None. }
  rewrite Hnone, He.
  rewrite (proj1 (ensure_notes_directory_creat fs)), Hcreat.
  rewrite strlen_app_nul by auto. cbn [mbind option_bind set_files].
  set (k := (slot `min` length d)%nat).
  destruct (Z.ltb_spec 0 (Z.of_nat (length text))) as [Hpos|Hzero].
  - unfold fwrite. rewrite decide_True by (rewrite length_app; simpl; lia).
    cbn [files_at fs_dir set_dir default from_option id set_files].
    assert (Hk : insert_at k (mkFile name DT_REG [] true) d !! k
                 = Some (mkFile name DT_REG [] true)).
    { unfold insert_at. rewrite lookup_app_r by (rewrite length_take; lia).
      rewrite length_take. replace (k - k `min` length d)%nat with 0%nat by lia.
      reflexivity. }
    rewrite Hk. cbn [mbind option_bind f_name f_type f_data f_access app].
    rewrite Nat2Z.id, take_app_length.
    unfold set_dir. cbn [fs_mkdir fs_creat fs_resolve fs_out]. do 2 f_equal.
    unfold insert_at. rewrite insert_app_r_alt by (rewrite length_take; lia).
    rewrite length_take. replace (k - k `min` length d)%nat with 0%nat by lia.
    reflexivity.
  - destruct text; [reflexivity | simpl in Hzero; lia].
Qed.

(** C4, amended: a title of at most 31 bytes that is a plain file name
    (not empty, without path separator, neither [.] nor [..], so not a
    path as [../x] is), that the card takes as the name of an entry of the
    storage directory (the path built from it designates the entry of that
    very name), that no entry bears and that the card lets a file be
    created under, and a content of at most 1023 bytes, saved while the
    directory (present, or created by [ensure_notes_directory]) lists
    fewer than [MAX_NOTES] regular files, are found again by [load_notes],
    wherever the card lists the new file: the store holds, below its
    count, a note with that title and that content. *)
Theorem save_then_load fs slot name text d :
  NUL ∉ name → NUL ∉ text →
  (length name ≤ 31)%nat → (length text ≤ 1023)%nat →
  plain name → fs_resolve fs name = Here name →
  fs_dir (ensure_notes_directory fs) = Some d →
  Forall (λ f, f_name f ≠ name) d →
  fs_creat fs name = true →
  count_reg d < MAX_NOTES →
  ∃ fs' s k note,
    save_note (name ++ [NUL]) (text ++ [NUL]) slot fs = Some fs' ∧
    load_notes (boot fs') = Some s ∧
    0 <= k < note_count s ∧
    notes s !! Z.to_nat k = Some note ∧
    cstr (title note) = name ∧ cstr (content note) = text.
Proof.
  intros Hn Ht Hl Hlt _ Hres Hd Hfresh Hcreat Hroom.
  rewrite (save_note_new fs slot name text d) by auto.
  set (k := (slot `min` length d)%nat).
  set (nf := mkFile name DT_REG text true).
  set (fs' := set_dir (insert_at k nf d) (ensure_notes_directory fs)).
  assert (Hdir : fs_dir fs' = Some (take k d ++ nf :: drop k d)) by reflexivity.
  assert (Hens : ensure_notes_directory fs' = fs').
  { unfold ensure_notes_directory, opendir. by rewrite Hdir. }
  destruct (filepath_of_short name Hn Hl) as [_ He].
  (* the regular files listed before the new one *)
  destruct (readdir_loop_inv fs' (take k d) (notes (boot fs')) 0)
    as (ns1 & c1 & Hr1 & Hlen1 & Hwf1 & Hc1 & Hcr1 & _);
    [apply boot_mem_ok | apply boot_mem_ok | unfold MAX_NOTES; lia |].
  pose proof (count_reg_take k d) as Htk.
  (* the new file *)
  assert (Hopen : fopen_rb fs' (filepath_of (f_name nf ++ [NUL])) = Some text).
  { unfold fopen_rb. cbn [f_name nf].
    destruct (locate_here fs' (filepath_of (name ++ [NUL])) name _ Hdir)
      as [Hloc Hat].
    { rewrite He. subst fs'. cbn [fs_resolve set_dir].
      by rewrite (proj1 (ensure_notes_directory_resolve fs)). }
    rewrite Hloc. cbn [mbind option_bind]. rewrite Hat.
    rewrite (find_entry_fresh _ (take k d) nf (drop k d)); [reflexivity| |].
    - apply Forall_take, Hfresh.
    - reflexivity. }
  destruct (load_entry_cases fs' nf ns1 c1 Hlen1 Hwf1) as
    [[_ [Hty|Hno]]|(data & old & _ & Hdata & Hold & Hnote & Hload)];
    [lia | by destruct Hty | congruence |].
  assert (data = text) as -> by congruence.
  cbv zeta in Hnote, Hload.
  cbn [f_name nf] in Hnote, Hload.
  rewrite cstr_app_nul in Hnote, Hload by auto.
  rewrite (take_ge name) in Hnote, Hload by lia.
  rewrite (take_ge text) in Hnote, Hload by lia.
  match type of Hload with _ = Some (<[_ := ?n]> _, _) => set (note := n) in * end.
  (* the entries listed after it *)
  destruct (readdir_loop_inv fs' (drop k d) (<[Z.to_nat c1 := note]> ns1) (c1 + 1))
    as (ns2 & c2 & Hr2 & Hlen2 & Hwf2 & Hc2 & _ & Hkeep);
    [by rewrite length_insert | by apply Forall_wf_insert | lia |].
  assert (Hloop : readdir_loop fs' (take k d ++ nf :: drop k d) (notes (boot fs'), 0)
                  = Some (ns2, c2)).
  { rewrite readdir_loop_app, Hr1. cbn [mbind option_bind readdir_loop snd].
    destruct (Z.ltb_spec c1 MAX_NOTES); [|lia].
    rewrite Hload. cbn [mbind option_bind]. exact Hr2. }
  exists fs', (set_note_count c2 (set_notes ns2
                 (set_note_count 0 (set_sdmc fs' (boot fs'))))), c1, note.
  split; [reflexivity|]. split.
  { unfold load_notes, opendir. simpl_state. rewrite Hens.
    rewrite Hdir. simpl_state. cbn [boot notes] in Hloop.
    rewrite Hloop. reflexivity. }
  simpl_state. split; [lia|]. split.
  { rewrite Hkeep by lia. apply list_lookup_insert_eq. unfold MAX_NOTES in *. lia. }
  subst note. cbn [title content]. split; by apply cstr_app_nul.
Qed.

(** ** Scenarios, with libctru's key masks *)

Section Scenarios.
#[local] Existing Instance libctru_keys.

(** On an empty card the loop starts in the menu, with no note and no
    selection. *)
Example start_on_empty_card :
  (λ s, (mode s, note_count s, selectedNote s)) <$>
    load_notes (boot empty_card)
  = Some (MODE_MENU, 0, -1).
Proof. reflexivity. Qed.

(** A first note: one note "todo" with no content, and an empty file. *)
Example create_todo :
  let s := run empty_card [typed KEY_A "todo"] in
  shown s = (1, [(bytes "todo", [])]) ∧ files s = [(bytes "todo", [])].
Proof. split; vm_compute; reflexivity. Qed.

(** Two lines added to it: joined by one line feed, in the note and in
    the file. *)
Example add_two_lines :
  let s := run empty_card
             [typed KEY_A "todo"; typed KEY_A "buy milk"; typed KEY_A "call mom"] in
  let text := bytes "buy milk" ++ [LF] ++ bytes "call mom" in
  shown s = (1, [(bytes "todo", text)]) ∧ files s = [(bytes "todo", text)].
Proof. split; vm_compute; reflexivity. Qed.

(** Twelve files on the card: the first ten are loaded. *)
Example load_twelve_files :
  shown <$> load_notes (boot twelve_card)
  = Some (10, (λ c, ([c], bytes "x")) <$> bytes "abcdefghij").
Proof. vm_compute; reflexivity. Qed.

(** A title that is a path out of the directory: the file is written
    elsewhere on the card, the directory lists nothing, and nothing is
    loaded. *)
Example dotdot_title_not_reloaded :
  ∃ fs', save_note (bytes "../x" ++ [NUL]) (bytes "hello" ++ [NUL]) 0 empty_card
         = Some fs' ∧
         fs_dir fs' = Some [] ∧
         (λ f, (f_name f, f_data f)) <$> fs_out fs' = [(bytes "x", bytes "hello")] ∧
         fopen_rb fs' (filepath_of (bytes "../x" ++ [NUL])) = Some (bytes "hello") ∧
         shown <$> load_notes (boot fs') = Some (0, []).
Proof. eexists. split; [vm_compute; reflexivity|]. split_and!; vm_compute; reflexivity. Qed.

(** A title that is a path back into the directory designates the entry
    it ends on. *)
Example dotdot_title_rewrites_entry :
  (λ fs', (λ f, (f_name f, f_data f)) <$> default [] (fs_dir fs')) <$>
    save_note (bytes "../3ds.md/5" ++ [NUL]) (bytes "new" ++ [NUL]) 0 full_card
  = Some ((λ c, ([c], if bool_decide (c = "5"%byte) then bytes "new" else []))
            <$> bytes "0123456789").
Proof. vm_compute; reflexivity. Qed.

(** What the sample cards resolve some paths to. *)
Example card_resolve_samples :
  card_resolve (bytes "todo") = Here (bytes "todo") ∧
  card_resolve (bytes "./todo") = Here (bytes "todo") ∧
  card_resolve (bytes "../x") = Elsewhere (bytes "x") ∧
  card_resolve (bytes "../../x") = Elsewhere (bytes "x") ∧
  card_resolve (bytes "../3ds.md/5") = Here (bytes "5") ∧
  card_resolve (bytes "5/x") = Nowhere ∧
  card_resolve (bytes "5/") = Nowhere ∧
  card_resolve (bytes "..") = Nowhere ∧
  card_resolve (bytes "../3ds.md") = Nowhere ∧
  card_resolve [] = Nowhere.
Proof. split_and!; reflexivity. Qed.

(** The remainder at its edges. *)
Example int_mod_samples :
  int_mod 7 3 = Some 1 ∧ int_mod (-7) 3 = Some (-1) ∧ int_mod 7 0 = None ∧
  int_mod INT_MIN (-1) = None ∧ int_mod INT_MIN 1 = Some 0.
Proof. split_and!; reflexivity. Qed.
Lemma run_reachable fs ins :
  main fs ins = Some (run fs ins) → reachable (run fs ins).
Proof. apply main_reachable. Qed.

(** C1: on an empty card, A on "New Note" with the title "todo" shows the
    new note (index 0 of one note); B then leads to the note list, where the
    comment on the test [selectedNote >= note_count] announces the menu. *)
Theorem back_from_new_note :
  (λ s, (mode s, selectedNote s, note_count s)) <$>
    main empty_card [typed KEY_A "todo"]
  = Some (MODE_VIEW_NOTE, 0, 1) ∧
  mode <$> main empty_card [typed KEY_A "todo"; keys KEY_B]
  = Some MODE_NOTE_LIST.
Proof. split; vm_compute; reflexivity. Qed.

(** C4 as stated fails on a card that lists ten regular files before the
    new one: "k" collides with none of them, is saved, and is then left
    out by the loop of [load_notes], which stops at [MAX_NOTES]. *)
Lemma full_card_round_trip_fails :
  ∃ fs' s,
    Forall (λ f, f_name f ≠ bytes "k") (default [] (fs_dir full_card)) ∧
    save_note (bytes "k" ++ [NUL]) (bytes "hello" ++ [NUL]) 10 full_card
      = Some fs' ∧
    load_notes (boot fs') = Some s ∧
    note_count s = MAX_NOTES ∧
    Forall (λ n, cstr (title n) ≠ bytes "k") (notes s).
Proof.
  eexists _, _. split; [by apply (bool_decide_unpack _)|].
  split; [vm_compute; reflexivity|].
  split; [vm_compute; reflexivity|].
  split; [reflexivity|]. by apply (bool_decide_unpack _).
Qed.

Lemma save_then_load_witness :
  ∃ fs' s k note,
    save_note (bytes "todo" ++ [NUL]) (bytes "buy milk" ++ [NUL]) 0 empty_card
      = Some fs' ∧
    load_notes (boot fs') = Some s ∧
    0 <= k < note_count s ∧
    notes s !! Z.to_nat k = Some note ∧
    cstr (title note) = bytes "todo" ∧ cstr (content note) = bytes "buy milk".
Proof.
  apply (save_then_load empty_card 0 (bytes "todo") (bytes "buy milk") []).
  - by apply (bool_decide_unpack _).
  - by apply (bool_decide_unpack _).
  - simpl; lia.
  - simpl; lia.
  - by apply (bool_decide_unpack _).
  - reflexivity.
  - reflexivity.
  - constructor.
  - reflexivity.
  - vm_compute; reflexivity.
Defined.

Lemma append_to_note_spec_witness :
  strlen (content long_note) = Some 1020 ∧
  strlen (bytes "xyz" ++ [NUL]) = Some 3 ∧
  append_to_note (Ref long_note) (Ref (bytes "xyz" ++ [NUL]))
  = Some (Ref long_note).
Proof.
  split; [vm_compute; reflexivity|]. split; [reflexivity|].
  destruct (append_to_note_spec long_note (bytes "xyz" ++ [NUL]) 1020 3)
    as (note' & Happ & _ & _ & _ & Hnoop);
    [vm_compute; reflexivity | vm_compute; reflexivity | reflexivity
     | vm_compute; reflexivity |].
  rewrite Happ. do 2 f_equal. apply Hnoop. vm_compute. discriminate.
Defined.

Lemma count_within_capacity_witness :
  note_count (run empty_card ten_notes) = MAX_NOTES ∧
  ∃ s', new_note (typed KEY_A "n10") (run empty_card ten_notes) = Some s' ∧
        note_count s' = MAX_NOTES ∧ mode s' = MODE_MENU.
Proof.
  split; [vm_compute; reflexivity|].
  destruct count_within_capacity as (_ & _ & Hfull).
  destruct (Hfull (typed KEY_A "n10") (run empty_card ten_notes))
    as (s' & Hnew & Hcount & _ & _ & Hmode & _).
  - apply run_reachable. vm_compute; reflexivity.
  - vm_compute; reflexivity.
  - exists s'. split; [exact Hnew|]. split; [exact Hcount|].
    rewrite Hmode. vm_compute; reflexivity.
Defined.

Lemma selection_valid_witness :
  let s := run empty_card [typed KEY_A "todo"] in
  selectedNote s = -1 ∨ 0 <= selectedNote s < note_count s.
Proof.
  apply selection_valid, run_reachable. vm_compute; reflexivity.
Defined.

Lemma edit_note_unreachable_witness :
  mode (run empty_card [typed KEY_A "todo"; keys KEY_B]) ≠ MODE_EDIT_NOTE.
Proof.
  apply edit_note_unreachable, run_reachable. vm_compute; reflexivity.
Defined.

Lemma list_navigation_defined_witness :
  let s := run empty_card [typed KEY_A "todo"; keys KEY_B] in
  0 < note_count s ∧
  ∀ i, ∃ s', note_list_input i s = Some s' ∧ frame i s = Some s'.
Proof.
  apply list_navigation_defined.
  - apply run_reachable. vm_compute; reflexivity.
  - vm_compute; reflexivity.
Defined.

Lemma list_navigation_wraps_witness :
  let s := run empty_card three_listed in
  note_count s = 3 ∧ selectedNote s = 0 ∧
  ∃ s', frame (keys KEY_UP) s = Some s' ∧ selectedNote s' = 2.
Proof.
  intros s.
  assert (Hc : note_count s = 3) by (vm_compute; reflexivity).
  assert (Hs : selectedNote s = 0) by (vm_compute; reflexivity).
  split; [exact Hc|]. split; [exact Hs|].
  destruct (list_navigation_wraps (keys KEY_UP) s) as [Hup _].
  - vm_compute; reflexivity.
  - rewrite Hc. lia.
  - rewrite Hc, Hs. lia.
  - destruct Hup as (s' & Hf & _ & _ & Hwrap);
      [vm_compute; reflexivity | vm_compute; reflexivity |].
    exists s'. split; [exact Hf | by apply Hwrap].
Defined.

Lemma add_line_frame_witness :
  let s := run empty_card [typed KEY_A "todo"] in
  ∃ s', frame (typed KEY_A "buy milk") s = Some s' ∧
        note_count s' = 1 ∧ selectedNote s' = 0 ∧ mode s' = MODE_VIEW_NOTE.
Proof.
  intros s.
  destruct (add_line_frame (typed KEY_A "buy milk") s)
    as (s' & note & note' & Hf & _ & _ & _ & _ & Hc & Hs & _ & Hm & _).
  - apply run_reachable. vm_compute; reflexivity.
  - vm_compute; reflexivity.
  - vm_compute; reflexivity.
  - vm_compute; reflexivity.
  - reflexivity.
  - exists s'. split; [exact Hf|]. rewrite Hc, Hs, Hm.
    split_and!; vm_compute; reflexivity.
Defined.
End Scenarios.

(** * Further properties *)

(** ** More on the card *)

Lemma ensure_notes_directory_dir fs d :
  fs_dir fs = Some d → ensure_notes_directory fs = fs.
Proof. intros Hd. unfold ensure_notes_directory, opendir. by rewrite Hd. Qed.

Lemma ensure_idem fs :
  ensure_notes_directory (ensure_notes_directory fs) = ensure_notes_directory fs.
Proof.
  unfold ensure_notes_directory, opendir, mkdir.
  destruct (fs_dir fs) eqn:Hd; simpl; rewrite ?Hd; [done|].
  destruct (fs_mkdir fs) eqn:Hm; simpl; rewrite ?Hd, ?Hm; done.
Qed.

(** X2: ensuring the notes directory twice is ensuring it once; a
    directory that exists is left alone, with its entries; a missing one is
    created empty when the card allows it and stays missing otherwise. *)
Theorem ensure_notes_directory_idempotent fs :
  ensure_notes_directory (ensure_notes_directory fs) = ensure_notes_directory fs ∧
  (∀ d, fs_dir fs = Some d → ensure_notes_directory fs = fs) ∧
  (fs_dir fs = None →
     fs_dir (ensure_notes_directory fs) = (if fs_mkdir fs then Some [] else None)) ∧
  fs_creat (ensure_notes_directory fs) = fs_creat fs.
Proof.
  split_and!.
  - apply ensure_idem.
  - apply ensure_notes_directory_dir.
  - intros Hd. unfold ensure_notes_directory, opendir, mkdir. rewrite Hd.
    destruct (fs_mkdir fs); [reflexivity | exact Hd].
  - apply ensure_notes_directory_creat.
Qed.

Lemma find_entry_insert name d k f f' :
  find_entry name d = Some (k, f) → f_name f' = f_name f →
  find_entry name (<[k := f']> d) = Some (k, f').
Proof.
  unfold find_entry. intros Hf Hn.
  apply list_find_Some in Hf as (Hk & HP & Hbefore).
  apply list_find_Some. split_and!.
  - apply list_lookup_insert_eq. by eapply lookup_lt_Some.
  - by rewrite Hn.
  - intros j g Hj Hlt. rewrite list_lookup_insert_ne in Hj by lia. eauto.
Qed.

Lemma find_entry_insert_at name d slot f :
  find_entry name d = None → f_name f = name →
  find_entry name (insert_at (slot `min` length d) f d)
  = Some ((slot `min` length d)%nat, f).
Proof.
  intros Hnone Hn. unfold insert_at.
  assert (Hl : length (take (slot `min` length d) d) = (slot `min` length d)%nat)
    by (rewrite length_take; lia).
  rewrite <- Hl at 3. apply find_entry_fresh; [|exact Hn].
  apply Forall_take. unfold find_entry in Hnone.
  by apply list_find_None in Hnone.
Qed.

Lemma insert_insert_at {A} k (x y : A) d :
  (k ≤ length d)%nat → <[k := y]> (insert_at k x d) = insert_at k y d.
Proof.
  intros Hk. unfold insert_at.
  rewrite insert_app_r_alt by (rewrite length_take; lia).
  rewrite length_take. by replace (k - k `min` length d)%nat with 0%nat by lia.
Qed.

Lemma lookup_insert_at {A} k (x : A) d :
  (k ≤ length d)%nat → insert_at k x d !! k = Some x.
Proof.
  intros Hk. unfold insert_at.
  rewrite lookup_app_r by (rewrite length_take; lia).
  rewrite length_take. by replace (k - k `min` length d)%nat with 0%nat by lia.
Qed.

(** [save_note] in closed form. *)
Lemma save_note_saved_card title content slot fs :
  terminated title → terminated content →
  save_note title content slot fs = Some (saved_card title content slot fs).
Proof.
  intros Ht Hc. unfold save_note, saved_card, snprintf_path.
  rewrite (terminated_strlen _ Ht). cbn [mbind option_bind].
  set (fs1 := ensure_notes_directory fs). set (path := filepath_of title).
  unfold fopen_wb. destruct (locate fs1 path) as [[p name]|] eqn:Hloc;
    [|reflexivity].
  cbn [mbind option_bind].
  pose proof (cstr_length_lt _ Hc) as Hlt.
  assert (Hw : ∀ d0 k f0, d0 !! k = Some f0 → f_data f0 = [] →
            (if 0 <? Z.of_nat (length (cstr content))
             then fwrite content (Z.of_nat (length (cstr content))) (p, k)
                    (set_files p d0 fs1)
             else Some (set_files p d0 fs1))
            = Some (set_files p (<[k := mkFile (f_name f0) (f_type f0) (cstr content)
                                        (f_access f0)]> d0) fs1)).
  { intros d0 k f0 Hk Hdata.
    destruct (Z.ltb_spec 0 (Z.of_nat (length (cstr content)))) as [Hpos|Hzero].
    - unfold fwrite. rewrite decide_True by lia.
      rewrite files_at_set_files, Hk.
      cbn [mbind option_bind]. rewrite Hdata, Nat2Z.id, set_files_twice. cbn [app].
      destruct (terminated_split _ Hc) as [rest Hr].
      replace (take (length (cstr content)) content) with (cstr content);
        [reflexivity|].
      transitivity (take (length (cstr content)) (cstr content ++ NUL :: rest));
        [by rewrite take_app_length | by rewrite <- Hr].
    - destruct (cstr content); [|simpl in Hzero; lia].
      rewrite <- Hdata. destruct f0. cbn. by rewrite list_insert_id. }
  destruct (find_entry name (files_at p fs1)) as [[k f]|] eqn:Hf.
  - destruct (f_access f); [|reflexivity].
    rewrite (terminated_strlen _ Hc). cbn [mbind option_bind].
    rewrite (Hw _ k (mkFile (f_name f) (f_type f) [] true)); [|
      apply list_lookup_insert_eq; by eapply find_entry_lt | reflexivity].
    cbn [f_name f_type f_access]. by rewrite list_insert_insert_eq.
  - destruct (fs_creat fs1 (entry_name path)); [|reflexivity].
    rewrite (terminated_strlen _ Hc). cbn [mbind option_bind].
    rewrite (Hw _ _ (mkFile name DT_REG [] true));
      [| apply lookup_insert_at; lia | reflexivity].
    cbn [f_name f_type f_access]. rewrite insert_insert_at by lia. reflexivity.
Qed.

(** The three outcomes of the stream [save_note] opens. *)
Lemma fopen_wb_cases fs path slot :
  match fopen_wb fs path slot with
  | Some _ =>
      ∃ p name, locate fs path = Some (p, name) ∧
        ((∃ k f, find_entry name (files_at p fs) = Some (k, f) ∧
                 f_access f = true) ∨
         (find_entry name (files_at p fs) = None ∧
          fs_creat fs (entry_name path) = true))
  | None =>
      locate fs path = None ∨
      ∃ p name, locate fs path = Some (p, name) ∧
        ((∃ k f, find_entry name (files_at p fs) = Some (k, f) ∧
                 f_access f = false) ∨
         (find_entry name (files_at p fs) = None ∧
          fs_creat fs (entry_name path) = false))
  end.
Proof.
  unfold fopen_wb. destruct (locate fs path) as [[p name]|];
    cbn [mbind option_bind]; [|by left].
  destruct (find_entry name (files_at p fs)) as [[k f]|] eqn:Hf.
  - destruct (f_access f) eqn:Ha; [|right]; exists p, name;
      (split; [reflexivity|]); left; by exists k, f.
  - destruct (fs_creat fs (entry_name path)) eqn:Hc; [|right]; exists p, name;
      (split; [reflexivity|]); by right.
Qed.

Lemma saved_card_read title content slot fs :
  is_Some (fopen_wb (ensure_notes_directory fs) (filepath_of title) slot) →
  fopen_rb (saved_card title content slot fs) (filepath_of title)
  = Some (cstr content).
Proof.
  intros [r Hr]. pose proof (fopen_wb_cases (ensure_notes_directory fs)
                               (filepath_of title) slot) as Hcases.
  rewrite Hr in Hcases.
  destruct Hcases as (p & name & Hloc & [(k & f & Hf & Ha)|[Hf Hc]]);
    unfold saved_card, fopen_rb; rewrite Hloc, Hf.
  - rewrite Ha. rewrite (locate_set_files _ _ _ _ _ Hloc).
    cbn [mbind option_bind]. rewrite files_at_set_files.
    rewrite (find_entry_insert _ _ _ _ _ Hf) by reflexivity. reflexivity.
  - rewrite Hc. rewrite (locate_set_files _ _ _ _ _ Hloc).
    cbn [mbind option_bind]. rewrite files_at_set_files.
    rewrite (find_entry_insert_at _ _ _ _ Hf) by reflexivity. reflexivity.
Qed.

Lemma saved_card_refused title content slot fs :
  fopen_wb (ensure_notes_directory fs) (filepath_of title) slot = None →
  saved_card title content slot fs = ensure_notes_directory fs.
Proof.
  intros Hr. pose proof (fopen_wb_cases (ensure_notes_directory fs)
                           (filepath_of title) slot) as Hcases.
  rewrite Hr in Hcases. unfold saved_card.
  destruct Hcases as [Hloc|(p & name & Hloc & [(k & f & Hf & Ha)|[Hf Hc]])].
  - by rewrite Hloc.
  - by rewrite Hloc, Hf, Ha.
  - by rewrite Hloc, Hf, Hc.
Qed.

(** X3: when the stream opens for writing, the file the title designates
    reads back as the content that was saved, whether the file was created
    or rewritten; when it does not open, nothing but the directory is
    touched. *)
Theorem save_note_read_back title content slot fs :
  terminated title → terminated content →
  ∃ fs', save_note title content slot fs = Some fs' ∧
    (is_Some (fopen_wb (ensure_notes_directory fs) (filepath_of title) slot) →
       fopen_rb fs' (filepath_of title) = Some (cstr content)) ∧
    (fopen_wb (ensure_notes_directory fs) (filepath_of title) slot = None →
       fs' = ensure_notes_directory fs).
Proof.
  intros Ht Hc. exists (saved_card title content slot fs).
  split; [by apply save_note_saved_card|].
  split; [apply saved_card_read | apply saved_card_refused].
Qed.

Lemma ensure_set_files p d fs :
  is_Some (fs_dir fs) →
  ensure_notes_directory (set_files p d fs) = set_files p d fs.
Proof.
  intros [d0 Hd]. unfold ensure_notes_directory, opendir.
  destruct p; cbn [set_files set_dir set_out fs_dir]; [done | by rewrite Hd].
Qed.

Lemma saved_card_ensure title content slot fs :
  ensure_notes_directory (saved_card title content slot fs)
  = saved_card title content slot fs.
Proof.
  unfold saved_card. set (fs1 := ensure_notes_directory fs).
  assert (H1 : ensure_notes_directory fs1 = fs1) by apply ensure_idem.
  destruct (locate fs1 _) as [[p name]|] eqn:Hloc; [|exact H1].
  destruct (locate_Some _ _ _ _ Hloc) as [Hd _].
  destruct (find_entry _ _) as [[k f]|].
  - destruct (f_access f); [by apply ensure_set_files | exact H1].
  - destruct (fs_creat fs1 _); [by apply ensure_set_files | exact H1].
Qed.

Lemma saved_card_twice title c1 c2 slot fs :
  saved_card title c2 slot (saved_card title c1 slot fs)
  = saved_card title c2 slot fs.
Proof.
  unfold saved_card at 1. rewrite saved_card_ensure.
  unfold saved_card. set (fs1 := ensure_notes_directory fs).
  set (path := filepath_of title).
  destruct (locate fs1 path) as [[p name]|] eqn:Hloc; [|by rewrite Hloc].
  destruct (find_entry name (files_at p fs1)) as [[k f]|] eqn:Hf.
  - destruct (f_access f) eqn:Ha; [|by rewrite Hloc, Hf, Ha].
    rewrite (locate_set_files _ _ _ _ _ Hloc), files_at_set_files.
    rewrite (find_entry_insert _ _ _ _ _ Hf) by reflexivity.
    cbn [f_access f_name f_type].
    by rewrite set_files_twice, list_insert_insert_eq.
  - destruct (fs_creat fs1 (entry_name path)) eqn:Hc; [|by rewrite Hloc, Hf, Hc].
    rewrite (locate_set_files _ _ _ _ _ Hloc), files_at_set_files.
    rewrite (find_entry_insert_at _ _ _ _ Hf) by reflexivity.
    cbn [f_access f_name f_type].
    rewrite set_files_twice, insert_insert_at by lia. reflexivity.
Qed.

(** X4: the last save wins: saving a title twice, with whatever contents,
    leaves the card as the second save alone would (the card placing a new
    file at the same position); in particular saving the same note again
    changes nothing. *)
Theorem save_note_last_wins title c1 c2 slot fs :
  terminated title → terminated c1 → terminated c2 →
  save_note title c1 slot fs ≫= save_note title c2 slot
  = save_note title c2 slot fs ∧
  save_note title c1 slot fs ≫= save_note title c1 slot
  = save_note title c1 slot fs.
Proof.
  intros Ht H1 H2.
  rewrite !save_note_saved_card by assumption. cbn [mbind option_bind].
  rewrite !save_note_saved_card by assumption.
  by rewrite !saved_card_twice.
Qed.

Lemma saved_card_others title content slot fs :
  let other := λ f, fs_resolve fs (entry_name (filepath_of title))
                    ≠ Here (f_name f) in
  filter other (default [] (fs_dir (saved_card title content slot fs)))
  = filter other (default [] (fs_dir (ensure_notes_directory fs))).
Proof.
  intros other. unfold saved_card.
  set (fs1 := ensure_notes_directory fs). set (path := filepath_of title).
  destruct (locate fs1 path) as [[p name]|] eqn:Hloc; [|reflexivity].
  destruct (locate_Some _ _ _ _ Hloc) as [_ Hres].
  fold path in other. unfold fs1 in Hres.
  rewrite (proj1 (ensure_notes_directory_resolve fs)) in Hres.
  destruct p; cbn [files_at set_files].
  2:{ destruct (find_entry name (fs_out fs1)) as [[k f]|].
      - by destruct (f_access f).
      - by destruct (fs_creat fs1 (entry_name path)). }
  set (d := default [] (fs_dir fs1)).
  destruct (find_entry name d) as [[k f]|] eqn:Hf.
  - destruct (f_access f); [|reflexivity].
    cbn [fs_dir set_dir default from_option id].
    pose proof Hf as Hfind. unfold find_entry in Hfind.
    apply list_find_Some in Hfind as (Hk & Hname & _).
    rewrite insert_take_drop by (by eapply lookup_lt_Some).
    rewrite <- (take_drop_middle d k f Hk) at 3.
    rewrite !list.filter_app, !filter_cons.
    rewrite !decide_False; [reflexivity | | ]; unfold other; cbn [f_name];
      intros Hne; apply Hne; by rewrite Hres, Hname.
  - destruct (fs_creat fs1 (entry_name path)); [|reflexivity].
    cbn [fs_dir set_dir default from_option id]. unfold insert_at.
    rewrite list.filter_app, filter_cons.
    rewrite decide_False by (unfold other; cbn [f_name]; intros Hne; by apply Hne).
    by rewrite <- list.filter_app, take_drop.
Qed.

Lemma saved_card_elsewhere title content slot fs :
  (∀ name, fs_resolve fs (entry_name (filepath_of title)) ≠ Here name) →
  fs_dir (saved_card title content slot fs)
  = fs_dir (ensure_notes_directory fs).
Proof.
  intros Hout. unfold saved_card.
  set (fs1 := ensure_notes_directory fs). set (path := filepath_of title).
  destruct (locate fs1 path) as [[p name]|] eqn:Hloc; [|reflexivity].
  destruct (locate_Some _ _ _ _ Hloc) as [_ Hres]. unfold fs1 in Hres.
  rewrite (proj1 (ensure_notes_directory_resolve fs)) in Hres.
  destruct p; [by destruct (Hout name)|]. cbn [files_at set_files].
  destruct (find_entry name (fs_out fs1)) as [[k f]|].
  - by destruct (f_access f).
  - by destruct (fs_creat fs1 (entry_name path)).
Qed.

(** X5: [save_note] touches one file only, the one the card resolves the
    path to: the entries of the directory other than the one the path
    designates are the same, in the same order, before and after, whatever
    the outcome of the save; and when the path designates no entry of the
    directory (a file elsewhere, or nothing), the listing is the same. *)
Theorem save_note_other_files title content slot fs :
  terminated title → terminated content →
  ∃ fs', save_note title content slot fs = Some fs' ∧
    (let other := λ f, fs_resolve fs (entry_name (filepath_of title))
                       ≠ Here (f_name f) in
     filter other (default [] (fs_dir fs'))
     = filter other (default [] (fs_dir (ensure_notes_directory fs)))) ∧
    ((∀ name, fs_resolve fs (entry_name (filepath_of title)) ≠ Here name) →
     fs_dir fs' = fs_dir (ensure_notes_directory fs)).
Proof.
  intros Ht Hc. exists (saved_card title content slot fs).
  split; [by apply save_note_saved_card|].
  split; [apply saved_card_others | apply saved_card_elsewhere].
Qed.

(** ** Loading, entry by entry *)

Lemma cstr_app_nul_any a r : cstr (a ++ NUL :: r) = cstr a.
Proof.
  induction a as [|b a IH]; simpl; [reflexivity|].
  destruct (is_nul b); [reflexivity | by rewrite IH].
Qed.

Lemma cstr_id t : NUL ∉ t → cstr t = t.
Proof.
  intros Hn. rewrite <- (app_nil_r t) at 1.
  rewrite cstr_app_no_nul by exact Hn. apply app_nil_r.
Qed.

Lemma take_S_insert {A} (l : list A) k x :
  (k < length l)%nat → take (S k) (<[k := x]> l) = take k l ++ [x].
Proof.
  intros Hk. rewrite (take_S_r _ _ x) by (by apply list_lookup_insert_eq).
  by rewrite take_insert_ge by lia.
Qed.

Lemma readdir_loop_exact fs entries : ∀ ns c,
  length ns = Z.to_nat MAX_NOTES → Forall wf_note ns →
  0 <= c <= MAX_NOTES →
  ∃ ns' c',
    readdir_loop fs entries (ns, c) = Some (ns', c') ∧
    length ns' = Z.to_nat MAX_NOTES ∧ 0 <= c' <= MAX_NOTES ∧
    (λ n, (cstr (title n), cstr (content n))) <$> take (Z.to_nat c') ns'
    = ((λ n, (cstr (title n), cstr (content n))) <$> take (Z.to_nat c) ns) ++
      take (Z.to_nat (MAX_NOTES - c))
        (loaded_note fs <$> filter (λ e, loadable fs e = true) entries).
Proof.
  induction entries as [|entry rest IH]; intros ns c Hlen Hwf Hc;
    cbn [readdir_loop snd].
  - exists ns, c. split_and!; auto; try lia.
    rewrite filter_nil. cbn [fmap list_fmap]. by rewrite take_nil, app_nil_r.
  - destruct (Z.ltb_spec c MAX_NOTES) as [Hlt|Hge].
    2:{ exists ns, c. split_and!; auto; try lia.
        replace (Z.to_nat (MAX_NOTES - c)) with 0%nat by lia.
        by rewrite take_0, app_nil_r. }
    destruct (load_entry_cases fs entry ns c Hlen Hwf) as
      [[Hsame Hwhy]|(data & old & Hty & Hopen & Hold & Hnote & Hload)]; [lia| |].
    + rewrite Hsame. cbn [mbind option_bind].
      assert (Hno : loadable fs entry = false).
      { unfold loadable, is_reg, opens. destruct Hwhy as [Hty|Hopen].
        - destruct (f_type entry); [congruence|reflexivity..].
        - rewrite Hopen. apply andb_false_intro2.
          apply bool_decide_eq_false. by intros [? ?]. }
      rewrite filter_cons, decide_False by (rewrite Hno; discriminate).
      apply IH; auto.
    + cbv zeta in Hnote, Hload. rewrite Hload. cbn [mbind option_bind].
      match type of Hload with _ = Some (<[_ := ?n]> _, _) => set (note := n) in * end.
      assert (Hyes : loadable fs entry = true).
      { unfold loadable, is_reg, opens. rewrite Hty, Hopen. apply andb_true_intro.
        split; [reflexivity|]. apply bool_decide_eq_true. eauto. }
      rewrite filter_cons, decide_True by exact Hyes.
      destruct (IH (<[Z.to_nat c := note]> ns) (c + 1))
        as (ns' & c' & Hr & Hlen' & Hc' & Hview);
        [by rewrite length_insert | by apply Forall_wf_insert | lia |].
      exists ns', c'. split_and!; auto; try lia.
      rewrite Hview. replace (Z.to_nat (c + 1)) with (S (Z.to_nat c)) by lia.
      rewrite take_S_insert by (unfold MAX_NOTES in *; lia).
      rewrite fmap_app, <- app_assoc. f_equal.
      replace (Z.to_nat (MAX_NOTES - c)) with (S (Z.to_nat (MAX_NOTES - (c + 1))))
        by lia.
      cbn [fmap list_fmap take app]. f_equal.
      subst note. unfold loaded_note, opens. rewrite Hopen.
      cbn [title content default from_option id].
      rewrite !cstr_app_nul_any.
      rewrite (cstr_id (take 31 _)) by apply take_cstr_no_nul.
      reflexivity.
Qed.

(** X6: what [load_notes] shows after start-up is read off the directory:
    the regular entries whose file opens, in the order of the listing, the
    first [MAX_NOTES] of them; each with the first 31 bytes of its name as
    title and the first 1023 bytes of its file as content (both up to a
    zero byte).  Other entries are skipped, and the card is left as
    [ensure_notes_directory] leaves it. *)
Theorem load_notes_exact fs :
  let fs1 := ensure_notes_directory fs in
  let l := take (Z.to_nat MAX_NOTES)
             (loaded_note fs1 <$>
                filter (λ e, loadable fs1 e = true) (default [] (fs_dir fs1))) in
  shown <$> load_notes (boot fs) = Some (Z.of_nat (length l), l) ∧
  sdmc <$> load_notes (boot fs) = Some fs1.
Proof.
  intros fs1 l. unfold load_notes, opendir. simpl_state. fold fs1.
  destruct (fs_dir fs1) as [d|] eqn:Hd.
  - destruct (boot_mem_ok fs) as (Hlen & Hwf & _).
    cbn [notes boot] in Hlen, Hwf.
    destruct (readdir_loop_exact fs1 d _ 0 Hlen Hwf)
      as (ns' & c' & Hr & Hlen' & Hc' & Hview); [unfold MAX_NOTES; lia|].
    rewrite Hr. simpl_state. split; [|reflexivity].
    cbn [fmap option_fmap option_map]. unfold shown. simpl_state.
    change (Z.to_nat 0) with 0%nat in Hview. rewrite take_0 in Hview.
    cbn [fmap list_fmap app] in Hview. rewrite Z.sub_0_r in Hview.
    cbn [default from_option id] in l. fold l in Hview.
    rewrite Hview. do 2 f_equal.
    rewrite <- Hview, length_fmap, length_take. lia.
  - split; [|reflexivity]. subst l. reflexivity.
Qed.

(** ** The prompts, outcome by outcome *)

Lemma add_line_cancelled i s :
  mem_ok s → swkbd_button i ≠ SWKBD_BUTTON_RIGHT →
  ∃ buf, buffer NOTE_CONTENT_LEN buf ∧
         add_line i s = Some (set_currentNoteContent buf s).
Proof.
  intros (Hlen & Hwf & Hcb & Htb) Hb. unfold add_line.
  destruct (swkbdInputText_buffer NOTE_CONTENT_LEN (currentNoteContent s) i)
    as (buf & Hbuf & Hbw & _); [apply Hcb | reflexivity |].
  rewrite Hbuf. simpl_state. rewrite decide_False by exact Hb. eauto.
Qed.

Lemma add_line_accepted i s :
  mem_ok s → sel_in_range s → note_count s <= MAX_NOTES →
  swkbd_button i = SWKBD_BUTTON_RIGHT →
  ∃ buf note note' fs',
    notes s !! Z.to_nat (selectedNote s) = Some note ∧ wf_note note ∧
    buffer NOTE_CONTENT_LEN buf ∧
    append_to_note (Ref note) (Ref buf) = Some (Ref note') ∧ wf_note note' ∧
    save_note (title note') (content note') (creat_slot i) (sdmc s) = Some fs' ∧
    add_line i s =
      Some (set_sdmc fs'
              (set_notes (<[Z.to_nat (selectedNote s) := note']> (notes s))
                 (set_currentNoteContent buf s))).
Proof.
  intros (Hlen & Hwf & Hcb & Htb) Hsel Hc Hb. unfold add_line, sel_in_range in *.
  destruct (swkbdInputText_buffer NOTE_CONTENT_LEN (currentNoteContent s) i)
    as (buf & Hbuf & Hbw & _); [apply Hcb | reflexivity |].
  rewrite Hbuf. simpl_state. rewrite decide_True by exact Hb.
  destruct (note_at_Some (notes s) (selectedNote s)) as (note & Hat & Hnote);
    [unfold MAX_NOTES in *; lia|].
  pose proof (Forall_lookup_1 _ _ _ _ Hwf Hnote) as Hwn.
  rewrite Hat. simpl_state.
  destruct (append_to_note_wf note buf Hwn Hbw) as (note' & Happ & Hwn' & Htitle).
  rewrite Happ. simpl_state.
  assert (Hat' : note_at (<[Z.to_nat (selectedNote s) := note']> (notes s))
                   (selectedNote s) = Some note').
  { unfold note_at. rewrite decide_True by lia.
    apply list_lookup_insert_eq. unfold MAX_NOTES in *. lia. }
  rewrite Hat'. simpl_state.
  destruct (save_note_defined (title note') (content note') (creat_slot i) (sdmc s))
    as [fs' Hsave]; [apply Hwn' | apply Hwn' |].
  rewrite Hsave. simpl_state.
  exists buf, note, note', fs'. by split_and!.
Qed.

Lemma new_note_rejected i s :
  mem_ok s →
  swkbd_button i ≠ SWKBD_BUTTON_RIGHT ∨ cstr (swkbd_text i) = [] ∨
    MAX_NOTES <= note_count s →
  ∃ buf, new_note i s
         = Some (set_currentNoteTitle buf
                   (set_currentNoteContent (zeroed NOTE_CONTENT_LEN) s)).
Proof.
  intros (Hlen & Hwf & Hcb & Htb) Hwhy. unfold new_note. simpl_state.
  destruct (swkbdInputText_buffer TITLE_LEN (zeroed TITLE_LEN) i)
    as (buf & Hbuf & Hbw & Hstr); [apply length_replicate | reflexivity |].
  rewrite Hbuf. simpl_state. exists buf.
  destruct (decide (swkbd_button i = SWKBD_BUTTON_RIGHT)) as [Hb|Hb]; [|reflexivity].
  rewrite (terminated_strlen _ (proj2 Hbw)). simpl_state.
  destruct Hwhy as [Hno|[Hempty|Hfull]]; [contradiction| |].
  - rewrite Hstr, Hempty, take_nil. reflexivity.
  - destruct (Z.ltb_spec (note_count s) MAX_NOTES); [lia|].
    by rewrite andb_false_r.
Qed.

Lemma new_note_created i s :
  mem_ok s → 0 <= note_count s < MAX_NOTES →
  swkbd_button i = SWKBD_BUTTON_RIGHT → cstr (swkbd_text i) ≠ [] →
  ∃ buf note fs',
    cstr buf = take 31 (cstr (swkbd_text i)) ∧
    cstr (title note) = cstr buf ∧ cstr (content note) = [] ∧ wf_note note ∧
    save_note buf [NUL] (creat_slot i) (sdmc s) = Some fs' ∧
    new_note i s =
      Some (set_mode MODE_VIEW_NOTE
              (set_note_count (note_count s + 1)
                 (set_selectedNote (note_count s)
                    (set_sdmc fs'
                       (set_notes (<[Z.to_nat (note_count s) := note]> (notes s))
                          (set_currentNoteTitle buf
                             (set_currentNoteContent (zeroed NOTE_CONTENT_LEN) s))))))).
Proof.
  intros (Hlen & Hwf & Hcb & Htb) Hc Hb Htext. unfold new_note. simpl_state.
  destruct (swkbdInputText_buffer TITLE_LEN (zeroed TITLE_LEN) i)
    as (buf & Hbuf & Hbw & Hstr); [apply length_replicate | reflexivity |].
  change (Z.to_nat (TITLE_LEN - 1)) with 31%nat in Hstr.
  rewrite Hbuf. simpl_state. rewrite decide_True by exact Hb.
  rewrite (terminated_strlen _ (proj2 Hbw)). simpl_state.
  assert (Hpos : (0 < length (cstr buf))%nat).
  { rewrite Hstr, length_take. destruct (cstr (swkbd_text i)); [done|simpl; lia]. }
  destruct (Z.ltb_spec 0 (Z.of_nat (length (cstr buf)))); [|lia].
  destruct (Z.ltb_spec (note_count s) MAX_NOTES); [|lia]. cbn [andb].
  destruct (note_at_Some (notes s) (note_count s)) as (old & Hat & Hold);
    [unfold MAX_NOTES in *; lia|].
  rewrite Hat. simpl_state.
  pose proof (Forall_lookup_1 _ _ _ _ Hwf Hold) as [Hot [Hocl Hoct]].
  destruct (safe_string_copy_buffer TITLE_LEN (title old) buf Hot (proj2 Hbw))
    as (t & Ht & Htw & Htc); [unfold TITLE_LEN; lia|].
  change (Z.to_nat (TITLE_LEN - 1)) with 31%nat in Htc.
  rewrite Ht. simpl_state.
  rewrite poke_Some by (rewrite Hocl; unfold NOTE_CONTENT_LEN; lia).
  simpl_state. change (Z.to_nat 0) with 0%nat.
  destruct (save_note_defined buf [NUL] (creat_slot i) (sdmc s) (proj2 Hbw))
    as [fs' Hsave]; [apply (terminated_app_nul [])|].
  rewrite Hsave. simpl_state.
  rewrite int_small by (unfold MAX_NOTES in *; lia). simpl_state.
  exists buf, (mkNote t (<[0%nat := NUL]> (content old))), fs'.
  split_and!; auto.
  - cbn [title]. rewrite Htc, Hstr, take_take. f_equal.
  - cbn [content]. destruct (content old); [discriminate Hocl|]. reflexivity.
  - split; [exact Htw|]. split; cbn [content].
    + by rewrite length_insert.
    + unfold terminated. destruct (content old); [discriminate Hocl|].
      simpl. apply list_elem_of_here.
Qed.

(** ** The store only grows *)

Lemma keeps_same s s' :
  notes s' = notes s → note_count s' = note_count s → keeps s s'.
Proof.
  intros Hn Hc. split; [lia|]. intros j note _ Hj.
  exists note. rewrite Hn. by split_and!.
Qed.

Lemma keeps_trans s1 s2 s3 : keeps s1 s2 → keeps s2 s3 → keeps s1 s3.
Proof.
  intros [Hc12 H12] [Hc23 H23]. split; [lia|]. intros j note Hj Hnote.
  destruct (H12 j note Hj Hnote) as (n2 & Hn2 & Ht2 & Hp2).
  destruct (H23 j n2) as (n3 & Hn3 & Ht3 & Hp3); [lia | exact Hn2 |].
  exists n3. split_and!; [exact Hn3 | congruence | by etrans].
Qed.

Lemma append_to_note_prefix note buf note' :
  wf_note note → buffer NOTE_CONTENT_LEN buf →
  append_to_note (Ref note) (Ref buf) = Some (Ref note') →
  title note' = title note ∧
  cstr (content note) `prefix_of` cstr (content note').
Proof.
  intros Hwn Hbuf Happ.
  destruct (buffer_strlen _ _ (proj2 Hwn)) as (L & HL & HLr & _).
  destruct (buffer_strlen _ _ Hbuf) as (N & HN & HNr & _).
  destruct (append_to_note_cases note buf L N (proj1 (proj2 Hwn)) HL HN)
    as (n2 & Hn2 & Htitle & _ & Hok & Hno);
    [unfold NOTE_CONTENT_LEN in *; lia|].
  assert (n2 = note') as -> by congruence. split; [exact Htitle|].
  destruct (Z.lt_ge_cases (L + N + 2) NOTE_CONTENT_LEN) as [Hlt|Hge].
  - destruct (Hok Hlt) as [_ ->]. by apply prefix_app_r.
  - by rewrite (Hno Hge).
Qed.

Section Growth.
Context `{HidKeys}.

(** A pass keeps what the store holds. *)
Lemma frame_keeps i s :
  wf_state s → ∃ s', frame i s = Some s' ∧ keeps s s'.
Proof.
  intros (Hmem & Hc & Hmenu & Hsel & Hmode). unfold frame.
  destruct (mode s) eqn:Em; [| | |contradiction].
  - (* menu *)
    unfold menu_input.
    pose (P := λ s', mem_ok s' ∧ 0 <= note_count s' <= MAX_NOTES ∧
                     (selectedMenu s' = 0 ∨ selectedMenu s' = 1) ∧
                     notes s' = notes s ∧ note_count s' = note_count s).
    assert (HP : P s) by (unfold P; split_and!; auto; lia).
    destruct (on_step P P (pressed i KEY_UP) menu_key_up s HP)
      as (s1 & -> & HP1); [|auto|].
    { intros (? & ? & Hm & ? & ?). rewrite menu_key_up_effect by auto.
      eexists. split; [reflexivity|]. unfold P in *. close_wf. }
    simpl_state.
    destruct (on_step P P (pressed i KEY_DOWN) menu_key_down s1 HP1)
      as (s2 & -> & HP2); [|auto|].
    { intros (? & ? & Hm & ? & ?). rewrite menu_key_down_effect by auto.
      eexists. split; [reflexivity|]. unfold P in *. close_wf. }
    simpl_state.
    apply (on_step P (keeps s)); [exact HP2| |].
    2:{ intros (_ & _ & _ & Hn & Hcount). by apply keeps_same. }
    intros (Hmem2 & Hc2 & _ & Hn2 & Hcount2). unfold menu_key_a.
    destruct (selectedMenu s2 =? 0).
    + destruct (new_note_effect i s2 Hmem2 Hc2)
        as (s' & Hnew & _ & _ & [Hcreated|Hrejected]); exists s';
        (split; [exact Hnew|]).
      * destruct Hcreated as (_ & _ & Hcount & _ & _ & Hother).
        split; [lia|]. intros j note Hj Hnote. exists note.
        rewrite Hother by lia. rewrite Hn2. by split_and!.
      * destruct Hrejected as (Hn & Hcount & _). apply keeps_same; congruence.
    + unfold view_notes. destruct (0 <? note_count s2);
        (eexists; split; [reflexivity|]); apply keeps_same; simpl_state; auto.
  - (* note list *)
    unfold note_list_input.
    pose (P := λ s', sel_in_range s' ∧ note_count s' <= MAX_NOTES ∧
                     notes s' = notes s ∧ note_count s' = note_count s).
    assert (HP : P s) by (unfold P; split_and!; auto; lia).
    destruct (on_step P P (pressed i KEY_B) list_key_b s HP)
      as (s1 & -> & HP1); [|auto|].
    { intros ?. eexists. split; [reflexivity|]. exact HP. }
    simpl_state.
    destruct (on_step P P (pressed i KEY_UP) list_key_up s1 HP1)
      as (s2 & -> & HP2); [|auto|].
    { intros (Hs & ? & ? & ?).
      rewrite list_key_up_effect by (auto; unfold MAX_NOTES in *; lia).
      pose proof (Z.mod_pos_bound (selectedNote s1 - 1 + note_count s1) (note_count s1)).
      eexists. split; [reflexivity|]. unfold P in *. close_wf. }
    simpl_state.
    destruct (on_step P P (pressed i KEY_DOWN) list_key_down s2 HP2)
      as (s3 & -> & HP3); [|auto|].
    { intros (Hs & ? & ? & ?).
      rewrite list_key_down_effect by (auto; unfold MAX_NOTES in *; lia).
      pose proof (Z.mod_pos_bound (selectedNote s2 + 1) (note_count s2)).
      eexists. split; [reflexivity|]. unfold P in *. close_wf. }
    simpl_state.
    apply (on_step P (keeps s)); [exact HP3| |].
    + intros (_ & _ & Hn & Hcount). eexists. split; [reflexivity|].
      apply keeps_same; simpl_state; auto.
    + intros (_ & _ & Hn & Hcount). by apply keeps_same.
  - (* note view *)
    unfold view_note_input.
    pose (P := λ s', mem_ok s' ∧ sel_in_range s' ∧ note_count s' <= MAX_NOTES ∧
                     notes s' = notes s ∧ note_count s' = note_count s).
    assert (HP : P s) by (unfold P; split_and!; auto; lia).
    destruct (on_step P P (pressed i KEY_B) view_key_b s HP)
      as (s1 & -> & HP1); [|auto|].
    { intros _. unfold view_key_b. simpl_state. unfold sel_in_range in Hmode.
      destruct (Z.leb_spec (note_count s) (selectedNote s)); [lia|].
      eexists. split; [reflexivity|]. exact HP. }
    simpl_state.
    apply (on_step P (keeps s)); [exact HP1| |].
    2:{ intros (_ & _ & _ & Hn & Hcount). by apply keeps_same. }
    intros (Hm1 & Hs1 & Hc1 & Hn1 & Hcount1).
    destruct (decide (swkbd_button i = SWKBD_BUTTON_RIGHT)) as [Hb|Hb].
    + destruct (add_line_accepted i s1 Hm1 Hs1 Hc1 Hb)
        as (buf & note & note' & fs' & Hnote & Hwn & Hbuf & Happ & _ & _ & Hadd).
      eexists. split; [exact Hadd|]. split; simpl_state; [lia|].
      intros j n Hj Hn. rewrite <- Hn1 in Hn.
      destruct (decide (j = Z.to_nat (selectedNote s1))) as [->|Hne].
      * exists note'. rewrite list_lookup_insert_eq by (by eapply lookup_lt_Some).
        assert (n = note) as -> by congruence.
        destruct (append_to_note_prefix note buf note' Hwn Hbuf Happ).
        by split_and!.
      * exists n. rewrite list_lookup_insert_ne by auto. by split_and!.
    + destruct (add_line_cancelled i s1 Hm1 Hb) as (buf & _ & Hadd).
      eexists. split; [exact Hadd|]. apply keeps_same; simpl_state; auto.
Qed.

(** X9: whatever the keys and the answers, the passes of the loop only
    add to the store: the count never goes down, and each note already
    counted keeps its title and a content that starts with the old one. *)
Theorem store_only_grows ins s :
  reachable s → ∃ s', main_loop ins s = Some s' ∧ keeps s s'.
Proof.
  revert s. induction ins as [|i ins IH]; intros s Hr; cbn [main_loop].
  - exists s. split; [reflexivity | by apply keeps_same].
  - destruct (quits i s) eqn:Hq.
    { exists s. split; [reflexivity | by apply keeps_same]. }
    destruct (frame_keeps i s (reachable_wf s Hr)) as (s1 & Hf & Hk1).
    rewrite Hf. cbn [mbind option_bind].
    destruct (IH s1) as (s' & Hl & Hk); [by eapply reach_frame|].
    exists s'. split; [exact Hl | by eapply keeps_trans].
Qed.

End Growth.

(** ** The loop as a whole *)


Section Loop.
Context `{HidKeys}.

Lemma main_loop_defined ins : ∀ s,
  reachable s → ∃ s', main_loop ins s = Some s' ∧ reachable s'.
Proof.
  induction ins as [|i ins IH]; intros s Hr; cbn [main_loop]; [eauto|].
  destruct (quits i s) eqn:Hq; [eauto|].
  destruct (reachable_progress i s Hr) as [s1 Hf]. rewrite Hf.
  cbn [mbind option_bind]. apply IH. by eapply reach_frame.
Qed.

(** X1: [main] meets no undefined behaviour: on every card and for every
    sequence of keys and prompt answers it runs to the end of the
    sequence (or to the quit) with every array index within bounds, every
    string it reads terminated, no [int] overflow and no zero divisor. *)
Theorem main_defined fs ins : ∃ s, main fs ins = Some s ∧ reachable s.
Proof.
  unfold main. destruct (load_notes_boot fs) as (s0 & Hl & _).
  rewrite Hl. cbn [mbind option_bind]. apply main_loop_defined.
  by eapply reach_load.
Qed.

(** X7: outside the menu a note is always selected: in the note list and
    in the note view the selection is the index of a stored note, whose
    title and content are terminated strings (what the drawing code
    reads); so with an empty store the loop is in the menu. *)
Theorem selection_shows_note s :
  reachable s → mode s ≠ MODE_MENU →
  ∃ note, note_at (notes s) (selectedNote s) = Some note ∧
          0 <= selectedNote s < note_count s ∧ note_count s <= MAX_NOTES ∧
          terminated (title note) ∧ terminated (content note).
Proof.
  intros Hr Hm. apply reachable_wf in Hr.
  destruct Hr as ((Hlen & Hwf & _) & Hc & _ & _ & Hmode).
  assert (Hs : sel_in_range s) by (destruct (mode s); done).
  unfold sel_in_range in Hs.
  destruct (note_at_Some (notes s) (selectedNote s)) as (note & Hat & Hn);
    [unfold MAX_NOTES in *; lia|].
  pose proof (Forall_lookup_1 _ _ _ _ Hwf Hn) as [[_ Ht] [_ Hct]].
  exists note. split_and!; auto; lia.
Qed.

(** X14: the capacities hold throughout: in every reachable state the
    ten notes of the array each hold a terminated title of at most 31
    bytes in 32 and a terminated content of at most 1023 bytes in 1024. *)
Theorem notes_within_capacity s :
  reachable s →
  length (notes s) = 10%nat ∧
  Forall (λ n, length (title n) = 32%nat ∧ length (content n) = 1024%nat ∧
               strlen (title n) = Some (Z.of_nat (length (cstr (title n)))) ∧
               strlen (content n) = Some (Z.of_nat (length (cstr (content n)))) ∧
               (length (cstr (title n)) ≤ 31)%nat ∧
               (length (cstr (content n)) ≤ 1023)%nat) (notes s).
Proof.
  intros Hr. apply reachable_wf in Hr. destruct Hr as ((Hlen & Hwf & _) & _).
  split; [exact Hlen|]. apply Forall_forall. intros n Hin.
  destruct (proj1 (Forall_forall _ _) Hwf n Hin) as [[Htl Htt] [Hcl Hct]].
  pose proof (cstr_length_lt _ Htt). pose proof (cstr_length_lt _ Hct).
  unfold TITLE_LEN, NOTE_CONTENT_LEN in *.
  split_and!; auto using terminated_strlen; lia.
Qed.


(** X10: the "New Note" entry.  With the prompt accepted on a non-empty
    title and room in the store, the note at index [note_count] gets the
    title typed (at most 31 bytes) and an empty content, is selected and
    shown, the count goes up by one and [save_note] is run on that title
    with an empty content.  With the prompt cancelled, an empty title or
    a full store, the store, the count, the selection, the mode and the
    card are left as they were. *)
Theorem new_note_outcome i s :
  reachable s →
  (swkbd_button i = SWKBD_BUTTON_RIGHT → cstr (swkbd_text i) ≠ [] →
   note_count s < MAX_NOTES →
   ∃ s' note,
     new_note i s = Some s' ∧
     notes s' = <[Z.to_nat (note_count s) := note]> (notes s) ∧
     cstr (title note) = take 31 (cstr (swkbd_text i)) ∧
     cstr (content note) = [] ∧
     note_count s' = note_count s + 1 ∧
     selectedNote s' = note_count s ∧ mode s' = MODE_VIEW_NOTE ∧
     selectedMenu s' = selectedMenu s ∧
     cstr (currentNoteTitle s') = cstr (title note) ∧
     save_note (currentNoteTitle s') [NUL] (creat_slot i) (sdmc s)
       = Some (sdmc s')) ∧
  (swkbd_button i ≠ SWKBD_BUTTON_RIGHT ∨ cstr (swkbd_text i) = [] ∨
     note_count s = MAX_NOTES →
   ∃ s',
     new_note i s = Some s' ∧ notes s' = notes s ∧
     note_count s' = note_count s ∧ selectedNote s' = selectedNote s ∧
     selectedMenu s' = selectedMenu s ∧ mode s' = mode s ∧
     sdmc s' = sdmc s).
Proof.
  intros Hr. apply reachable_wf in Hr. destruct Hr as (Hmem & Hc & _).
  split.
  - intros Hb Htext Hroom.
    destruct (new_note_created i s Hmem) as
      (buf & note & fs' & Hbuf & Ht & Hcontent & _ & Hsave & Hnew); auto; [lia|].
    eexists _, note. split; [exact Hnew|]. simpl_state.
    split_and!; auto. congruence.
  - intros Hwhy. destruct (new_note_rejected i s Hmem) as (buf & Hnew).
    { destruct Hwhy as [?|[?|?]]; auto. right. right. lia. }
    eexists. split; [exact Hnew|]. simpl_state. by split_and!.
Qed.

(** X11: nothing is written without an accepted prompt: a pass in which
    A is not pressed, or in which the prompt is not closed with its right
    button, leaves the store, the count and the card as they were. *)
Theorem no_write_without_accept i s :
  reachable s →
  pressed i KEY_A = false ∨ swkbd_button i ≠ SWKBD_BUTTON_RIGHT →
  ∃ s', frame i s = Some s' ∧ notes s' = notes s ∧
        note_count s' = note_count s ∧ sdmc s' = sdmc s.
Proof.
  intros Hr Hwhy. apply reachable_wf in Hr.
  destruct Hr as (Hmem & Hc & Hmenu & Hsel & Hmode). unfold frame.
  destruct (mode s) eqn:Em; [| | |contradiction].
  - unfold menu_input.
    pose (P := λ s', mem_ok s' ∧ (selectedMenu s' = 0 ∨ selectedMenu s' = 1) ∧
                     notes s' = notes s ∧ note_count s' = note_count s ∧
                     sdmc s' = sdmc s).
    assert (HP : P s) by (unfold P; split_and!; auto).
    destruct (on_step P P (pressed i KEY_UP) menu_key_up s HP)
      as (s1 & -> & HP1); [|auto|].
    { intros (? & Hm & ? & ? & ?). rewrite menu_key_up_effect by auto.
      eexists. split; [reflexivity|]. unfold P in *. close_wf. }
    simpl_state.
    destruct (on_step P P (pressed i KEY_DOWN) menu_key_down s1 HP1)
      as (s2 & -> & HP2); [|auto|].
    { intros (? & Hm & ? & ? & ?). rewrite menu_key_down_effect by auto.
      eexists. split; [reflexivity|]. unfold P in *. close_wf. }
    simpl_state. destruct HP2 as (Hmem2 & _ & Hn2 & Hc2 & Hfs2).
    destruct (pressed i KEY_A) eqn:Ha; cbn [on]; [|by eauto].
    destruct Hwhy as [?|Hb]; [discriminate|]. unfold menu_key_a.
    destruct (selectedMenu s2 =? 0).
    + destruct (new_note_rejected i s2 Hmem2) as (buf & Hnew); [by left|].
      eexists. split; [exact Hnew|]. simpl_state. by split_and!.
    + unfold view_notes. destruct (0 <? note_count s2);
        (eexists; split; [reflexivity|]); simpl_state; by split_and!.
  - unfold note_list_input.
    pose (P := λ s', sel_in_range s' ∧ note_count s' <= MAX_NOTES ∧
                     notes s' = notes s ∧ note_count s' = note_count s ∧
                     sdmc s' = sdmc s).
    assert (HP : P s) by (unfold P; split_and!; auto; lia).
    destruct (on_step P P (pressed i KEY_B) list_key_b s HP)
      as (s1 & -> & HP1); [|auto|].
    { intros ?. eexists. split; [reflexivity|]. exact HP. }
    simpl_state.
    destruct (on_step P P (pressed i KEY_UP) list_key_up s1 HP1)
      as (s2 & -> & HP2); [|auto|].
    { intros (Hs & ? & ? & ? & ?).
      rewrite list_key_up_effect by (auto; unfold MAX_NOTES in *; lia).
      pose proof (Z.mod_pos_bound (selectedNote s1 - 1 + note_count s1) (note_count s1)).
      eexists. split; [reflexivity|]. unfold P in *. close_wf. }
    simpl_state.
    destruct (on_step P P (pressed i KEY_DOWN) list_key_down s2 HP2)
      as (s3 & -> & HP3); [|auto|].
    { intros (Hs & ? & ? & ? & ?).
      rewrite list_key_down_effect by (auto; unfold MAX_NOTES in *; lia).
      pose proof (Z.mod_pos_bound (selectedNote s2 + 1) (note_count s2)).
      eexists. split; [reflexivity|]. unfold P in *. close_wf. }
    simpl_state. destruct HP3 as (_ & _ & ? & ? & ?).
    unfold on, list_key_a. destruct (_ && _); eexists;
      (split; [reflexivity|]); simpl_state; by split_and!.
  - unfold view_note_input.
    pose (P := λ s', mem_ok s' ∧ notes s' = notes s ∧
                     note_count s' = note_count s ∧ sdmc s' = sdmc s).
    assert (HP : P s) by (unfold P; split_and!; auto).
    destruct (on_step P P (pressed i KEY_B) view_key_b s HP)
      as (s1 & -> & HP1); [|auto|].
    { intros _. unfold view_key_b. simpl_state. unfold sel_in_range in Hmode.
      destruct (Z.leb_spec (note_count s) (selectedNote s)); [lia|].
      eexists. split; [reflexivity|]. exact HP. }
    simpl_state. destruct HP1 as (Hmem1 & ? & ? & ?).
    destruct (pressed i KEY_A) eqn:Ha; cbn [on]; [|by eauto].
    destruct Hwhy as [?|Hb]; [discriminate|].
    destruct (add_line_cancelled i s1 Hmem1 Hb) as (buf & _ & Hadd).
    eexists. split; [exact Hadd|]. simpl_state. by split_and!.
Qed.

(** X12: an accepted "Add Line" is saved at once: the card after the
    pass is the one [save_note] makes of the selected note's title and new
    content, and when the stream opened for writing the file of that
    title reads back as the whole content of the note in the store. *)
Theorem add_line_persisted i s :
  reachable s → mode s = MODE_VIEW_NOTE →
  pressed i KEY_A = true → pressed i KEY_B = false →
  swkbd_button i = SWKBD_BUTTON_RIGHT →
  ∃ s' note',
    frame i s = Some s' ∧
    notes s' !! Z.to_nat (selectedNote s) = Some note' ∧
    save_note (title note') (content note') (creat_slot i) (sdmc s)
      = Some (sdmc s') ∧
    (is_Some (fopen_wb (ensure_notes_directory (sdmc s))
                (filepath_of (title note')) (creat_slot i)) →
     fopen_rb (sdmc s') (filepath_of (title note'))
       = Some (cstr (content note'))).
Proof.
  intros Hr Hm Ha Hb Hbutton. apply reachable_wf in Hr.
  destruct Hr as (Hmem & Hc & _ & _ & Hmode). rewrite Hm in Hmode.
  unfold frame, view_note_input. rewrite Hm, Ha, Hb. cbn [on mbind option_bind].
  destruct (add_line_accepted i s Hmem Hmode (proj2 Hc) Hbutton)
    as (buf & note & note' & fs' & Hnote & _ & _ & _ & Hwn' & Hsave & Hadd).
  eexists _, note'. split; [exact Hadd|]. simpl_state.
  split; [apply list_lookup_insert_eq; by eapply lookup_lt_Some|].
  split; [exact Hsave|]. intros Hopen.
  rewrite save_note_saved_card in Hsave by apply Hwn'.
  injection Hsave as <-. by apply saved_card_read.
Qed.

End Loop.

(** ** Line after line *)

Lemma append_to_note_fits note l :
  wf_note note → NUL ∉ l →
  Z.of_nat (length (cstr (content note))) + Z.of_nat (length l) + 2
    < NOTE_CONTENT_LEN →
  ∃ note',
    append_to_note (Ref note) (Ref (l ++ [NUL])) = Some (Ref note') ∧
    wf_note note' ∧ title note' = title note ∧
    cstr (content note') =
      cstr (content note) ++
      (if 0 <? Z.of_nat (length (cstr (content note))) then [LF] else []) ++ l.
Proof.
  intros [Ht [Hcl Hct]] Hl Hfit.
  destruct (append_to_note_cases note (l ++ [NUL])
              (Z.of_nat (length (cstr (content note)))) (Z.of_nat (length l)))
    as (note' & Happ & Htitle & Hlen & Hok & _);
    [exact Hcl | by apply terminated_strlen | by apply strlen_app_nul
     | unfold NOTE_CONTENT_LEN in *; lia |].
  destruct (Hok Hfit) as [Hterm Hstr]. rewrite cstr_app_nul in Hstr by exact Hl.
  exists note'. split_and!; auto.
  split; [by rewrite Htitle | split; [congruence | exact Hterm]].
Qed.

Lemma append_lines_more ls : ∀ note,
  wf_note note → cstr (content note) ≠ [] →
  Forall (λ x, NUL ∉ x) ls →
  Z.of_nat (length (cstr (content note) ++ concat ((λ x, LF :: x) <$> ls)))
    + 1 < NOTE_CONTENT_LEN →
  ∃ note', append_lines note ls = Some note' ∧ title note' = title note ∧
           cstr (content note') =
             cstr (content note) ++ concat ((λ x, LF :: x) <$> ls).
Proof.
  induction ls as [|l ls IH]; intros note Hwn Hne Hls Hfit; cbn [append_lines].
  - exists note. cbn. by rewrite app_nil_r.
  - destruct (Forall_cons_1 _ _ _ Hls) as [Hl Hls']. clear Hls. rename Hls' into Hls.
    cbn [fmap list_fmap concat] in Hfit |- *.
    rewrite !length_app in Hfit. cbn [length] in Hfit.
    destruct (append_to_note_fits note l Hwn Hl) as (n1 & Happ & Hw1 & Ht1 & Hc1);
      [lia|].
    rewrite Happ. cbn [mbind option_bind deref].
    assert (Hpos : (0 <? Z.of_nat (length (cstr (content note)))) = true).
    { apply Z.ltb_lt. destruct (cstr (content note)); [done|simpl; lia]. }
    rewrite Hpos in Hc1.
    destruct (IH n1 Hw1) as (note' & Hrun & Ht' & Hc'); auto.
    { rewrite Hc1. by destruct (cstr (content note)). }
    { rewrite Hc1. rewrite <- !app_assoc. rewrite !length_app. cbn [length app].
      rewrite ?length_app. cbn [length]. lia. }
    exists note'. split_and!; [exact Hrun | congruence |].
    rewrite Hc', Hc1. by rewrite <- !app_assoc.
Qed.

(** X13: lines added one after the other to an empty note build the text
    of those lines joined by single line feeds, as long as it fits: a
    first line of at most 1021 bytes and a whole of at most 1022. *)
Theorem append_lines_joined note l ls :
  wf_note note → cstr (content note) = [] →
  l ≠ [] → Forall (λ x, NUL ∉ x) (l :: ls) →
  Z.of_nat (length l) + 2 < NOTE_CONTENT_LEN →
  Z.of_nat (length (l ++ concat ((λ x, LF :: x) <$> ls))) + 1 < NOTE_CONTENT_LEN →
  ∃ note', append_lines note (l :: ls) = Some note' ∧
           title note' = title note ∧
           cstr (content note') = l ++ concat ((λ x, LF :: x) <$> ls).
Proof.
  intros Hwn Hempty Hne Hall Hfirst Hfit.
  destruct (Forall_cons_1 _ _ _ Hall) as [Hl Hls].
  cbn [append_lines].
  destruct (append_to_note_fits note l Hwn Hl) as (n1 & Happ & Hw1 & Ht1 & Hc1);
    [rewrite Hempty; simpl; lia|].
  rewrite Happ. cbn [mbind option_bind deref].
  rewrite Hempty in Hc1. cbn in Hc1.
  destruct (append_lines_more ls n1 Hw1) as (note' & Hrun & Ht' & Hc'); auto.
  { by rewrite Hc1. }
  { by rewrite Hc1. }
  exists note'. split_and!; [exact Hrun | congruence | by rewrite Hc', Hc1].
Qed.

(** ** More scenarios *)

Section MoreScenarios.
#[local] Existing Instance libctru_keys.

Lemma save_note_read_back_witness :
  ∃ fs', save_note (bytes "todo" ++ [NUL]) (bytes "buy milk" ++ [NUL]) 0 empty_card
         = Some fs' ∧
         fopen_rb fs' (filepath_of (bytes "todo" ++ [NUL])) = Some (bytes "buy milk").
Proof.
  destruct (save_note_read_back (bytes "todo" ++ [NUL]) (bytes "buy milk" ++ [NUL])
              0 empty_card) as (fs' & Hsave & Hread & _).
  - apply terminated_app_nul.
  - apply terminated_app_nul.
  - exists fs'. split; [exact Hsave|]. apply Hread. vm_compute. eauto.
Defined.

Lemma save_note_last_wins_witness :
  save_note (bytes "todo" ++ [NUL]) (bytes "old" ++ [NUL]) 0 empty_card
    ≫= save_note (bytes "todo" ++ [NUL]) (bytes "new" ++ [NUL]) 0
  = save_note (bytes "todo" ++ [NUL]) (bytes "new" ++ [NUL]) 0 empty_card.
Proof.
  apply (save_note_last_wins (bytes "todo" ++ [NUL]) (bytes "old" ++ [NUL])
           (bytes "new" ++ [NUL]) 0 empty_card); apply terminated_app_nul.
Defined.

Lemma save_note_other_files_witness :
  ∃ fs', save_note (bytes "../3ds.md/5" ++ [NUL]) (bytes "new" ++ [NUL]) 0 full_card
         = Some fs' ∧
         f_name <$> filter (λ f, Here (bytes "5") ≠ Here (f_name f))
                      (default [] (fs_dir fs'))
         = (λ c, [c]) <$> bytes "012346789".
Proof.
  destruct (save_note_other_files (bytes "../3ds.md/5" ++ [NUL])
              (bytes "new" ++ [NUL]) 0 full_card) as (fs' & Hsave & Hothers & _).
  - apply terminated_app_nul.
  - apply terminated_app_nul.
  - exists fs'. split; [exact Hsave|].
    change (fs_resolve full_card
              (entry_name (filepath_of (bytes "../3ds.md/5" ++ [NUL]))))
      with (Here (bytes "5")) in Hothers.
    cbv zeta in Hothers. rewrite Hothers. vm_compute. reflexivity.
Defined.

Lemma selection_shows_note_witness :
  let s := run empty_card [typed KEY_A "todo"] in
  ∃ note, note_at (notes s) (selectedNote s) = Some note ∧
          cstr (title note) = bytes "todo".
Proof.
  intros s. destruct (selection_shows_note s) as (note & Hat & _).
  - apply run_reachable. vm_compute; reflexivity.
  - vm_compute. discriminate.
  - exists note. split; [exact Hat|].
    assert (Hc : note_at (notes s) (selectedNote s)
                 = Some (mkNote (bytes "todo" ++ zeroed 28) (zeroed 1024)))
      by (vm_compute; reflexivity).
    rewrite Hat in Hc. injection Hc as ->. vm_compute; reflexivity.
Defined.


Lemma store_only_grows_witness :
  let s := run empty_card [typed KEY_A "todo"] in
  ∃ s', main_loop [typed KEY_A "buy milk"; keys KEY_B; keys KEY_B;
                   typed KEY_A "more"] s = Some s' ∧
        keeps s s'.
Proof.
  intros s. apply store_only_grows, run_reachable. vm_compute; reflexivity.
Defined.

Lemma new_note_outcome_witness :
  let s := run empty_card [] in
  ∃ s' note, new_note (typed KEY_A "todo") s = Some s' ∧
             notes s' !! 0%nat = Some note ∧
             cstr (title note) = bytes "todo" ∧ cstr (content note) = [] ∧
             mode s' = MODE_VIEW_NOTE.
Proof.
  intros s.
  destruct (new_note_outcome (typed KEY_A "todo") s) as [Hcreate _].
  - apply run_reachable. vm_compute; reflexivity.
  - destruct Hcreate as (s' & note & Hnew & Hn & Ht & Hc & _ & _ & Hm & _).
    + reflexivity.
    + vm_compute. discriminate.
    + vm_compute. reflexivity.
    + exists s', note. split_and!; auto. rewrite Hn. reflexivity.
Defined.

Lemma no_write_without_accept_witness :
  let s := run empty_card [typed KEY_A "todo"] in
  ∃ s', frame (mkInput KEY_A SWKBD_BUTTON_LEFT (bytes "dropped") 0) s = Some s' ∧
        notes s' = notes s ∧ sdmc s' = sdmc s.
Proof.
  intros s.
  destruct (no_write_without_accept
              (mkInput KEY_A SWKBD_BUTTON_LEFT (bytes "dropped") 0) s)
    as (s' & Hf & Hn & _ & Hfs).
  - apply run_reachable. vm_compute; reflexivity.
  - right. discriminate.
  - exists s'. by split_and!.
Defined.

Lemma add_line_persisted_witness :
  let s := run empty_card [typed KEY_A "todo"] in
  ∃ s' note',
    frame (typed KEY_A "buy milk") s = Some s' ∧
    notes s' !! 0%nat = Some note' ∧
    fopen_rb (sdmc s') (filepath_of (title note')) = Some (cstr (content note')).
Proof.
  intros s.
  destruct (add_line_persisted (typed KEY_A "buy milk") s)
    as (s' & note' & Hf & Hn & _ & Hread).
  - apply run_reachable. vm_compute; reflexivity.
  - vm_compute; reflexivity.
  - vm_compute; reflexivity.
  - vm_compute; reflexivity.
  - reflexivity.
  - exists s', note'. split; [exact Hf|]. split; [exact Hn|].
    apply Hread.
    assert (Hf' : frame (typed KEY_A "buy milk") s
                  = Some (run empty_card [typed KEY_A "todo"; typed KEY_A "buy milk"]))
      by (vm_compute; reflexivity).
    rewrite Hf in Hf'. injection Hf' as ->.
    assert (Hnote : Some note' = Some (mkNote (bytes "todo" ++ zeroed 28)
                                         (bytes "buy milk" ++ zeroed 1016)))
      by (rewrite <- Hn; vm_compute; reflexivity).
    injection Hnote as ->. vm_compute. eauto.
Defined.

Lemma notes_within_capacity_witness :
  Forall (λ n, (length (cstr (title n)) ≤ 31)%nat ∧
               (length (cstr (content n)) ≤ 1023)%nat)
    (notes (run twelve_card [typed KEY_A "dropped"])).
Proof.
  destruct (notes_within_capacity (run twelve_card [typed KEY_A "dropped"]))
    as [_ Hall].
  - apply run_reachable. vm_compute; reflexivity.
  - apply Forall_forall. intros n Hin.
    destruct (proj1 (Forall_forall _ _) Hall n Hin) as (_ & _ & _ & _ & ? & ?).
    by split.
Defined.

Lemma append_lines_joined_witness :
  ∃ note', append_lines empty_note [bytes "buy milk"; bytes "call mom"] = Some note' ∧
           cstr (content note') = bytes "buy milk" ++ LF :: bytes "call mom".
Proof.
  destruct (append_lines_joined empty_note (bytes "buy milk") [bytes "call mom"])
    as (note' & Hrun & _ & Hc).
  - apply wf_empty_note.
  - reflexivity.
  - discriminate.
  - repeat constructor; by apply (bool_decide_unpack _).
  - vm_compute; reflexivity.
  - vm_compute; reflexivity.
  - exists note'. split; [exact Hrun|]. rewrite Hc. reflexivity.
Defined.

End MoreScenarios.
